(** * stemtools: the resampling, ROI and strain-mapping core, embedded in Rocq

    The numeric code of [stemtools/nbed/nbed_strain.py] and
    [stemtools/eels/eels_tools.py] is translated function by function.

    - A [float64] value is an exact rational of [Qc]; statements that the
      documentation makes "within floating tolerance" are stated and proved as
      exact equalities of this idealised arithmetic.  [Qc] has no NaN and no
      infinity: a division by zero is [0].
    - A Python [int] is a [Z].
    - A one-dimensional array is a [list Qc], a two-dimensional one a list of
      rows; an element is read with stdpp's lookup [!!] and written with
      insert [<[ _ := _ ]>].
    - A Python exception is [None] of [option]; the option monad of stdpp
      threads it through the loops.
    - Functions of scipy, pywt and of the sibling modules of the package
      ([image_utils], [sobel_canny], [gauss_utils]) are [Variable]s of the
      section that uses them. *)

From Stdlib Require Import ZArith QArith Qcanon Lia String Sorted.
From stdpp Require Import base option list.

Open Scope Qc_scope.

(** ** Numbers *)

(** The [float64] value of a Python [int]. *)
Definition z2q (z : Z) : Qc := Q2Qc (inject_Z z).

(** ** Python and numpy primitives *)

Module Py.

(** [data[i]]: a negative index counts from the end, an index out of range
    raises [IndexError]. *)
Definition get {A} (l : list A) (i : Z) : option A :=
  if (0 <=? i)%Z then l !! Z.to_nat i
  else if (0 <=? Z.of_nat (length l) + i)%Z
       then l !! Z.to_nat (Z.of_nat (length l) + i)
       else None.

(** [range(N)]. *)
Definition range (N : Z) : list Z := Z.of_nat <$> seq 0 (Z.to_nat N).

(** [for i in idx: s = body(s, i)], stopping at the first exception. *)
Fixpoint for_each {S I} (body : S → I → option S) (idx : list I) (s : S)
  : option S :=
  match idx with
  | [] => Some s
  | i :: idx' => s' ← body s i; for_each body idx' s'
  end.

End Py.

(** A two-dimensional array, as the list of its rows. *)
Abbreviation image := (list (list Qc)).

Module Np.

(** [np.sum] of a one-dimensional array. *)
Definition sum (l : list Qc) : Qc := foldr Qcplus 0 l.

(** [np.sum] of a two-dimensional array. *)
Definition sum2 (a : image) : Qc := sum (sum <$> a).

(** [np.zeros(n)]; a negative length raises [ValueError]. *)
Definition zeros (n : Z) : option (list Qc) :=
  if (n <? 0)%Z then None else Some (replicate (Z.to_nat n) 0).

(** [np.zeros((r, c))]. *)
Definition zeros2 (r c : Z) : option image :=
  if ((r <? 0) || (c <? 0))%Z then None
  else Some (replicate (Z.to_nat r) (replicate (Z.to_nat c) 0)).

(** [np.shape] of a two-dimensional array.  The width is read off the first
    row, so an array without rows has no columns here. *)
Definition shape2 {A} (a : list (list A)) : nat * nat :=
  (length a, from_option length 0%nat (head a)).

(** [np.round(d / s)] for integers [d] and [s], followed by [astype(int)]:
    rounding to the nearest integer, a tie going to the even one.  A zero
    divisor makes numpy produce [inf] or [nan], whose integer cast is no
    usable length; that is [None] here. *)
Definition round_div (d s : Z) : option Z :=
  if (s =? 0)%Z then None
  else
    let quo := (d / s)%Z in
    let r := Z.abs (d - quo * s) in
    Some (match (2 * r ?= Z.abs s)%Z with
          | Lt => quo
          | Gt => (quo + 1)%Z
          | Eq => if Z.even quo then quo else (quo + 1)%Z
          end).

(** [a[yy, :] = r]; the row must have the width of the array. *)
Definition set_row (yy : Z) (r : list Qc) (a : image) : option image :=
  row ← Py.get a yy;
  if decide (length r = length row) then Some (<[Z.to_nat yy := r]> a) else None.

(** [a[:, xx]]. *)
Definition get_col (xx : Z) (a : image) : option (list Qc) :=
  mapM (λ row, Py.get row xx) a.

(** [a[:, xx] = c]; the column must have the height of the array. *)
Definition set_col (xx : Z) (c : list Qc) (a : image) : option image :=
  if decide (length c = length a)
  then Some (zip_with (λ row v, <[Z.to_nat xx := v]> row) a c)
  else None.

(** Insertion sort, for [np.median]. *)
Fixpoint insert_sorted (x : Qc) (l : list Qc) : list Qc :=
  match l with
  | [] => [x]
  | y :: l' => match x ?= y with
               | Gt => y :: insert_sorted x l'
               | _ => x :: l
               end
  end.

Definition sort (l : list Qc) : list Qc := foldr insert_sorted [] l.

(** [np.median] of the flattened array; [None] stands for the [nan] that numpy
    returns on an empty array. *)
Definition median (a : image) : option Qc :=
  let s := sort (concat a) in
  let n := length s in
  if Nat.even n
  then hi ← s !! (n / 2)%nat; lo ← s !! (n / 2 - 1)%nat; Some ((lo + hi) / z2q 2)
  else s !! (n / 2)%nat.

(** [np.amin] and [np.amax]; an empty array raises [ValueError]. *)
Definition min2 (x y : Qc) : Qc := match x ?= y with Gt => y | _ => x end.
Definition max2 (x y : Qc) : Qc := match x ?= y with Lt => y | _ => x end.

Definition amin (l : list Qc) : option Qc :=
  match l with [] => None | x :: l' => Some (foldl min2 x l') end.

Definition amax (l : list Qc) : option Qc :=
  match l with [] => None | x :: l' => Some (foldl max2 x l') end.

(** [np.mean(stack, axis=-1)] of a stack kept as the list of its slices
    [stack[:, :, ii]]: the pixel-wise mean.  numpy fills the mean of an empty
    stack with [nan] and does not raise; [nan] is no rational, so that is
    [None] here, and what uses the mean of an empty stack stops where the
    code goes on with [nan]. *)
Definition add_image (a b : image) : image := zip_with (zip_with Qcplus) a b.

Definition mean_stack (stack : list image) : option image :=
  match stack with
  | [] => None
  | p :: ps =>
      let n := z2q (Z.of_nat (length stack)) in
      Some ((λ row : list Qc, (λ v, v / n) <$> row) <$> foldl add_image p ps)
  end.

End Np.

(** ** [resizer] *)

(** The inner [while m*N - n*M < M] loop of [resizer].  Every turn adds [N]
    to [m*N], so [(n+1)*M - m*N] turns are enough; [fuel] is started at that
    number by [resizer_body]. *)
Fixpoint resizer_while (fuel : nat) (data : list Qc) (N M n m : Z)
    (data_sum : Qc) : option (Z * Qc) :=
  if (m * N - n * M <? M)%Z then
    match fuel with
    | O => None
    | S fuel' =>
        d ← Py.get data m;
        resizer_while fuel' data N M n (m + 1) (data_sum + d)
    end
  else Some (m, data_sum).

(** One turn of [for n in range(int(N))]; the state is [(res, carry, m)]. *)
Definition resizer_body (data : list Qc) (N M : Z)
    (st : list Qc * Qc * Z) (n : Z) : option (list Qc * Qc * Z) :=
  let '(res, carry, m) := st in
  '(m, data_sum) ← resizer_while (Z.to_nat ((n + 1) * M - m * N)) data N M n m carry;
  d ← Py.get data (m - 1);
  let carry := (z2q m - z2q ((n + 1) * M) / z2q N) * d in
  let data_sum := data_sum - carry in
  Some (<[Z.to_nat n := data_sum * z2q N / z2q M]> res, carry, m).

Definition resizer (data : list Qc) (N : Z) : option (list Qc) :=
  let M := Z.of_nat (length data) in
  res ← Np.zeros N;
  '(res, _, _) ← Py.for_each (resizer_body data N M) (Py.range N) (res, 0, 0%Z);
  Some res.


(** What holds of the state [(res, carry, m)] of [resizer] after [k] turns of
    its outer loop: [k] bins are filled, [m] input samples are consumed, which
    is the least number with [k*M ≤ m*N], and the filled bins hold the
    intensity of these samples less the part [carry] of the last one that
    belongs to the next bin. *)
Definition resizer_inv (data : list Qc) (N : Z) (k : nat)
    (st : list Qc * Qc * Z) : Prop :=
  let M := Z.of_nat (length data) in
  ∃ (mn : nat) (filled : list Qc) (d : Qc),
    st = (filled ++ replicate (Z.to_nat N - k) 0,
          (z2q (Z.of_nat mn) - z2q (Z.of_nat k * M) / z2q N) * d,
          Z.of_nat mn) ∧
    length filled = k ∧
    (Z.of_nat k * M ≤ Z.of_nat mn * N)%Z ∧
    ((1 ≤ mn)%nat → ((Z.of_nat mn - 1) * N < Z.of_nat k * M)%Z) ∧
    Np.sum filled =
      (Np.sum (take mn data)
       - (z2q (Z.of_nat mn) - z2q (Z.of_nat k * M) / z2q N) * d)
      * z2q N / z2q M.

(** ** [resizer2D] *)

Definition resizer2D (data : image) (sampling : Z * Z) : option image :=
  let data_shape := Np.shape2 data in
  s0 ← Np.round_div (Z.of_nat data_shape.1) sampling.1;
  s1 ← Np.round_div (Z.of_nat data_shape.2) sampling.2;
  resampled_x ← Np.zeros2 (Z.of_nat data_shape.1) s1;
  resampled ← Np.zeros2 s0 s1;
  resampled_x ←
    Py.for_each
      (λ rx yy, row ← Py.get data yy; r ← resizer row s1; Np.set_row yy r rx)
      (Py.range (Z.of_nat data_shape.1)) resampled_x;
  Py.for_each
    (λ rs xx, c ← Np.get_col xx resampled_x; r ← resizer c s0; Np.set_col xx r rs)
    (Py.range s1) resampled.

(** ** [bin4D] *)

(** A four-dimensional array [data4D[a][b][ii][jj]]. *)
Abbreviation data4d := (list (list (list (list Qc)))).

Module Np4.

Definition shape4 (d : data4d) : nat * nat * nat * nat :=
  let p := default [] (head d) in
  let c := default [] (head p) in
  let r := default [] (head c) in
  (length d, length p, length c, length r).

(** A cell [data4D[a][b]] of [d2] rows of [d3] pixels. *)
Definition cell_rect (d2 d3 : nat) (c : image) : Prop :=
  length c = d2 ∧ Forall (λ r : list Qc, length r = d3) c.

(** Every axis has one length. *)
Definition rect4 (d : data4d) : Prop :=
  let '(_, d1, d2, d3) := shape4 d in
  Forall (λ pl : list image, length pl = d1 ∧ Forall (cell_rect d2 d3) pl) d.

(** [np.mean(data4D, axis=(-1,-2))]. *)
Definition mean_last2 (d : data4d) : image :=
  let '(_, _, d2, d3) := shape4 d in
  (λ p : list image, (λ c : image, Np.sum2 c / z2q (Z.of_nat (d2 * d3))) <$> p) <$> d.

(** [np.zeros((b0, b1, d2, d3))]. *)
Definition zeros4 (b0 b1 d2 d3 : nat) : data4d :=
  replicate b0 (replicate b1 (replicate d2 (replicate d3 0))).

(** [data4D[:, :, ii, jj]]. *)
Definition get_slice (ii jj : Z) (d : data4d) : option image :=
  mapM (mapM (λ c : image, row ← Py.get c ii; Py.get row jj)) d.

(** [binned[:, :, ii, jj] = r]; [r] must have the shape of the first two
    axes. *)
Definition set_slice (ii jj : Z) (r : image) (d : data4d) : option data4d :=
  if decide (length <$> r = length <$> d)
  then Some (zip_with
               (zip_with (λ (c : image) v,
                            alter (λ row, <[Z.to_nat jj := v]> row) (Z.to_nat ii) c))
               d r)
  else None.

End Np4.

Definition bin4D (data4D : data4d) (bin_factor : Z) : option data4d :=
  let '(_, _, d2, d3) := Np4.shape4 data4D in
  let mean_data := Np4.mean_last2 data4D in
  mean_binned ← resizer2D mean_data (bin_factor, bin_factor);
  let binned_data :=
    Np4.zeros4 (Np.shape2 mean_binned).1 (Np.shape2 mean_binned).2 d2 d3 in
  Py.for_each
    (λ bd ii,
       Py.for_each
         (λ bd jj,
            sl ← Np4.get_slice ii jj data4D;
            r ← resizer2D sl (bin_factor, bin_factor);
            Np4.set_slice ii jj r bd)
         (Py.range (Z.of_nat d3)) bd)
    (Py.range (Z.of_nat d2)) binned_data.

(** The output of [bin4D] while it is being filled: the pixels [(i, j)] of
    the last two axes that [p] marks hold the value of [d], the others the
    zero they were created with.  [written ii jj] marks what the loops have
    assigned when the outer one is at [ii] and the inner one at [jj]. *)
Definition filled_cell (p : nat → nat → bool) (c : image) : image :=
  imap (λ i, imap (λ j v, if p i j then v else 0)) c.

Definition filled (p : nat → nat → bool) (d : data4d) : data4d :=
  (λ pl : list image, filled_cell p <$> pl) <$> d.

Definition written (ii jj i j : nat) : bool :=
  (i <? ii)%nat || ((i =? ii)%nat && (j <? jj)%nat).

(** ** [ROI_strain_map] *)

Module Mask.

(** Number of true pixels. *)
Definition count (mask : list (list bool)) : nat :=
  length (filter (λ b, b = true) (concat mask)).

(** [row[mask] = vals] on one row: the values are consumed from the left,
    what is not consumed goes to the next row. *)
Fixpoint put_row (mask : list bool) (row vals : list Qc) : list Qc * list Qc :=
  match mask, row with
  | b :: mask', x :: row' =>
      if b then
        match vals with
        | v :: vals' =>
            let '(r, rest) := put_row mask' row' vals' in (v :: r, rest)
        | [] => (row, [])
        end
      else let '(r, rest) := put_row mask' row' vals in (x :: r, rest)
  | _, _ => (row, vals)
  end.

Fixpoint put_rows (mask : list (list bool)) (a : image) (vals : list Qc) : image :=
  match mask, a with
  | m :: mask', row :: a' =>
      let '(r, rest) := put_row m row vals in r :: put_rows mask' a' rest
  | _, _ => a
  end.

(** [a[mask] = vals]: as many values as true pixels, in row-major order; one
    value is broadcast to all of them; any other number raises
    [ValueError]. *)
Definition put (mask : list (list bool)) (vals : list Qc) (a : image)
  : option image :=
  if decide (length vals = count mask) then Some (put_rows mask a vals)
  else match vals with
       | [v] => Some (put_rows mask a (replicate (count mask) v))
       | _ => None
       end.

(** [a[mask]]: the pixels under the true positions, in row-major order. *)
Fixpoint get_row (mask : list bool) (row : list Qc) : list Qc :=
  match mask, row with
  | b :: mask', x :: row' => if b then x :: get_row mask' row' else get_row mask' row'
  | _, _ => []
  end.

Definition get (mask : list (list bool)) (a : image) : list Qc :=
  concat (zip_with get_row mask a).

(** [np.zeros_like(ROI, dtype=np.float64)]. *)
Definition zeros_like (mask : list (list bool)) : image :=
  (λ row : list bool, (λ _, 0) <$> row) <$> mask.

End Mask.

Definition ROI_strain_map (strain_ROI : list Qc) (ROI : list (list bool))
  : option image :=
  let strain_map := Mask.zeros_like ROI in
  Mask.put ROI strain_ROI strain_map.

(** ** Two-by-two matrices *)

Record mat2 := Mat2 { m00 : Qc; m01 : Qc; m10 : Qc; m11 : Qc }.

(** [np.eye(2)]. *)
Definition eye2 : mat2 := Mat2 1 0 0 1.

(** [np.matmul(a, b)]. *)
Definition matmul2 (a b : mat2) : mat2 :=
  Mat2 (m00 a * m00 b + m01 a * m10 b) (m00 a * m01 b + m01 a * m11 b)
       (m10 a * m00 b + m11 a * m10 b) (m10 a * m01 b + m11 a * m11 b).

(** [a - b]. *)
Definition sub2 (a b : mat2) : mat2 :=
  Mat2 (m00 a - m00 b) (m01 a - m01 b) (m10 a - m10 b) (m11 a - m11 b).

Definition det2 (a : mat2) : Qc := m00 a * m11 a - m01 a * m10 a.

(** [np.linalg.inv(a)] in exact arithmetic.  [None] stands for the matrix
    that has no inverse: numpy raises [LinAlgError] on it when the
    elimination meets a pivot that is exactly zero, and returns numbers of
    the order of [1e15] when rounding leaves a tiny pivot instead. *)
Definition inv2 (a : mat2) : option mat2 :=
  if Qc_eq_dec (det2 a) 0 then None
  else Some (Mat2 (m11 a / det2 a) (- m01 a / det2 a)
                  (- m10 a / det2 a) (m00 a / det2 a)).

(** ** The disk locator and the strain extractors *)

(** The collaborators of the strain pipeline: the Gaussian peak fitter of
    [gauss_utils], the Sobel operator of [sobel_canny], the log scaling and
    the cross-correlation of [image_utils], and of numpy the least-squares
    solver, the constant [np.pi] and the power [** 0.5]. *)
Class NbedLib := {
  fit_gaussian2D_mask : image → Qc → Qc → Qc → Qc * Qc;
  lstsq : list (Qc * Qc) → list (Qc * Qc) → mat2;
  sobel : image → image * image;
  image_logarizer : image → image;
  cross_corr : image → image → Qc → image;
  np_pi : Qc;
  pow_half : Qc → Qc
}.

(** [(diff_spots[:,0] == 0) and (diff_spots[:,1] == 0)] on one row. *)
Definition is_origin (s : Qc * Qc) : bool :=
  Qc_eq_bool s.1 0 && Qc_eq_bool s.2 0.

(** [a[mask, :]] for a one-dimensional boolean [mask]; a mask of another
    length than the array raises [IndexError]. *)
Definition select_rows {A} (mask : list bool) (a : list A) : option (list A) :=
  if decide (length mask = length a)
  then Some ((zip mask a) ≫= (λ '(b, x), if b : bool then [x] else []))
  else None.

Section nbed.
Context `{NbedLib}.

Definition fit_nbed_disks (corr_image : image) (disk_size : Qc)
    (positions diff_spots : list (Qc * Qc))
  : option (list (Qc * Qc) * (Qc * Qc) * mat2) :=
  let fitted_disk_list := (λ _, (0, 0)) <$> positions in
  fitted_disk_list ←
    Py.for_each
      (λ (fl : list (Qc * Qc)) ii,
         pos ← Py.get positions ii;
         let posx := pos.1 in
         let posy := pos.2 in
         let par := fit_gaussian2D_mask corr_image posx posy disk_size in
         Some (<[Z.to_nat ii := (par.1, par.2)]> fl))
      (Py.range (Z.of_nat (length positions))) fitted_disk_list;
  let disk_locations := fitted_disk_list in
  let disk_locations := (λ p : Qc * Qc, (p.1, 0 - p.2)) <$> disk_locations in
  center ← select_rows (is_origin <$> diff_spots) disk_locations;
  c0 ← Py.get center 0;
  let cx := c0.1 in
  let cy := c0.2 in
  let disk_locations := (λ p : Qc * Qc, (p.1 - cx, p.2 - cy)) <$> disk_locations in
  let lcbed := lstsq diff_spots disk_locations in
  let cy := z2q (-1) * cy in
  Some (fitted_disk_list, (cx, cy), lcbed).

(** In the words of the specification: the positions refined one by one by
    the peak fitter, each with the search radius [disk_size]. *)
Definition refined (corr_image : image) (disk_size : Qc)
    (positions : list (Qc * Qc)) : list (Qc * Qc) :=
  (λ pos : Qc * Qc, fit_gaussian2D_mask corr_image pos.1 pos.2 disk_size)
  <$> positions.

(** [img[img > med_factor*np.median(img)] = np.median(img)]; on an empty
    image, whose median is [nan], nothing is selected. *)
Definition clamp_outliers (med_factor : Qc) (img : image) : image :=
  match Np.median img with
  | None => img
  | Some md =>
      (λ row : list Qc,
         (λ v, match v ?= med_factor * md with Gt => md | _ => v end) <$> row)
      <$> img
  end.

(** The body of the loop over [ii] shared by both extractors, from
    [t_pattern] on. *)
Definition store_strain (pattern_axes inverse_axes : mat2) (ii : Z)
    (st : list Qc * list Qc * list Qc * list Qc)
  : list Qc * list Qc * list Qc * list Qc :=
  let '(e_xx_ROI, e_xy_ROI, e_th_ROI, e_yy_ROI) := st in
  let i_matrix := eye2 in
  let t_pattern := matmul2 pattern_axes inverse_axes in
  let s_pattern := sub2 t_pattern i_matrix in
  (<[Z.to_nat ii := - m00 s_pattern]> e_xx_ROI,
   <[Z.to_nat ii := - (m01 s_pattern + m10 s_pattern)]> e_xy_ROI,
   <[Z.to_nat ii := m01 s_pattern - m10 s_pattern]> e_th_ROI,
   <[Z.to_nat ii := - m11 s_pattern]> e_yy_ROI).

(** The stack [data4D_ROI] of shape [(ky, kx, N)] is the list of its [N]
    patterns [data4D_ROI[:, :, ii]]; [reference_axes] is [None] for the
    default scalar [0] and for anything else of less than two elements. *)
Definition strain_in_ROI (data4D_ROI : list image) (center_disk : image)
    (disk_list pos_list : list (Qc * Qc)) (reference_axes : option mat2)
    (med_factor : Qc)
  : option (list Qc * list Qc * list Qc * list Qc) :=
  let no_of_disks := Z.of_nat (length data4D_ROI) in
  let disk_size := pow_half (Np.sum2 center_disk / np_pi) in
  let sobel_center_disk := (sobel center_disk).1 in
  e_xx_ROI ← Np.zeros no_of_disks;
  e_xy_ROI ← Np.zeros no_of_disks;
  e_th_ROI ← Np.zeros no_of_disks;
  e_yy_ROI ← Np.zeros no_of_disks;
  inverse_axes ←
    match reference_axes with
    | None =>
        mean_cbed ← Np.mean_stack data4D_ROI;
        let sobel_lm_cbed := (sobel (image_logarizer mean_cbed)).1 in
        let sobel_lm_cbed := clamp_outliers med_factor sobel_lm_cbed in
        let lsc_mean := cross_corr sobel_lm_cbed sobel_center_disk (z2q 1 / z2q 10) in
        '(_, _, mean_axes) ← fit_nbed_disks lsc_mean disk_size disk_list pos_list;
        inv2 mean_axes
    | Some reference_axes => inv2 reference_axes
    end;
  Py.for_each
    (λ st ii,
       pattern ← Py.get data4D_ROI ii;
       let sobel_log_pattern := (sobel (image_logarizer pattern)).1 in
       let sobel_log_pattern := clamp_outliers med_factor sobel_log_pattern in
       let lsc_pattern := cross_corr sobel_log_pattern sobel_center_disk (z2q 1 / z2q 10) in
       '(_, _, pattern_axes) ← fit_nbed_disks lsc_pattern disk_size disk_list pos_list;
       Some (store_strain pattern_axes inverse_axes ii st))
    (Py.range no_of_disks) (e_xx_ROI, e_xy_ROI, e_th_ROI, e_yy_ROI).

Definition strain_oldstyle (data4D_ROI : list image) (center_disk : image)
    (disk_list pos_list : list (Qc * Qc)) (reference_axes : option mat2)
  : option (list Qc * list Qc * list Qc * list Qc) :=
  let no_of_disks := Z.of_nat (length data4D_ROI) in
  let disk_size := pow_half (Np.sum2 center_disk / np_pi) in
  e_xx_ROI ← Np.zeros no_of_disks;
  e_xy_ROI ← Np.zeros no_of_disks;
  e_th_ROI ← Np.zeros no_of_disks;
  e_yy_ROI ← Np.zeros no_of_disks;
  inverse_axes ←
    match reference_axes with
    | None =>
        mean_cbed ← Np.mean_stack data4D_ROI;
        let cc_mean := cross_corr mean_cbed center_disk (z2q 1 / z2q 10) in
        '(_, _, mean_axes) ← fit_nbed_disks cc_mean disk_size disk_list pos_list;
        inv2 mean_axes
    | Some reference_axes => inv2 reference_axes
    end;
  Py.for_each
    (λ st ii,
       pattern ← Py.get data4D_ROI ii;
       let cc_pattern := cross_corr pattern center_disk (z2q 1 / z2q 10) in
       '(_, _, pattern_axes) ← fit_nbed_disks cc_pattern disk_size disk_list pos_list;
       Some (store_strain pattern_axes inverse_axes ii st))
    (Py.range no_of_disks) (e_xx_ROI, e_xy_ROI, e_th_ROI, e_yy_ROI).

(** *** The pipeline in the words of the specification *)

(** The four strain components of a pattern basis against the inverse of the
    reference basis: [T = pattern_axes · inverse(reference_axes)],
    [S = T − I]. *)
Definition strain_of (pattern_axes inverse_axes : mat2) : Qc * Qc * Qc * Qc :=
  let T := matmul2 pattern_axes inverse_axes in
  let S := sub2 T eye2 in
  (- m00 S, - (m01 S + m10 S), m01 S - m10 S, - m11 S).

(** The lattice basis fitted to one pattern, after the preprocessing [prep]
    of the pattern and [prep_disk] of the reference disk. *)
Definition pipeline_axes (prep prep_disk : image → image) (center_disk : image)
    (disk_list pos_list : list (Qc * Qc)) (pattern : image) : option mat2 :=
  let disk_size := pow_half (Np.sum2 center_disk / np_pi) in
  '(_, _, axes) ←
    fit_nbed_disks (cross_corr (prep pattern) (prep_disk center_disk) (z2q 1 / z2q 10))
      disk_size disk_list pos_list;
  Some axes.

(** The reference basis: the supplied one, or the one fitted to the mean
    pattern. *)
Definition pipeline_reference (prep prep_disk : image → image)
    (data4D_ROI : list image) (center_disk : image)
    (disk_list pos_list : list (Qc * Qc)) (reference_axes : option mat2)
  : option mat2 :=
  match reference_axes with
  | None =>
      mean_cbed ← Np.mean_stack data4D_ROI;
      pipeline_axes prep prep_disk center_disk disk_list pos_list mean_cbed
  | Some r => Some r
  end.

(** Steps 1 to 4 of the strain extractor, the preprocessing stages being
    parameters. *)
Definition strain_pipeline (prep prep_disk : image → image)
    (data4D_ROI : list image) (center_disk : image)
    (disk_list pos_list : list (Qc * Qc)) (reference_axes : option mat2)
  : option (list Qc * list Qc * list Qc * list Qc) :=
  ref ← pipeline_reference prep prep_disk data4D_ROI center_disk disk_list
          pos_list reference_axes;
  inverse_axes ← inv2 ref;
  e ← mapM (λ pattern,
              axes ← pipeline_axes prep prep_disk center_disk disk_list pos_list pattern;
              Some (strain_of axes inverse_axes))
         data4D_ROI;
  Some ((λ x : Qc * Qc * Qc * Qc, x.1.1.1) <$> e, (λ x : Qc * Qc * Qc * Qc, x.1.1.2) <$> e,
        (λ x : Qc * Qc * Qc * Qc, x.1.2) <$> e, (λ x : Qc * Qc * Qc * Qc, x.2) <$> e).

(** The preprocessing of [strain_in_ROI]: log scaling, edge detection and
    outlier clamping of the pattern, edge detection of the reference disk. *)
Definition edge_prep (med_factor : Qc) (pattern : image) : image :=
  clamp_outliers med_factor (sobel (image_logarizer pattern)).1.

Definition edge_prep_disk (center_disk : image) : image := (sobel center_disk).1.

End nbed.

(** ** [angle_fun] and [rotation_finder] *)


Section rotation.
Context `{ScipyLib}.




End rotation.

(** ** [cleanEELS_wavelet] *)

(** Of pywt: [Wavelet(name).dec_len], [dwt_max_level], [wavedec],
    [threshold] and [waverec]. *)
Class PywtLib := {
  dec_len : string → Z;
  dwt_max_level : Z → Z → Z;
  wavedec : list Qc → string → Z → list (list Qc);
  threshold : list Qc → Qc → list Qc;
  waverec : list (list Qc) → string → list Qc
}.

Module Py2.
(** [range(a, b)]. *)
Definition range (a b : Z) : list Z := (λ i, (a + i)%Z) <$> Py.range (b - a).
End Py2.

Section eels.
Context `{PywtLib}.

(** [coeffs2 = coeffs] binds a second name to the one list, so the loop reads
    and writes a single store, [coeffs] here.  The argument [threshold] is
    rebound to [0.1] before its first use. *)
Definition cleanEELS_wavelet (data : list Qc) (threshold_arg : Qc) : option (list Qc) :=
  let wave := "sym4"%string in
  let max_level := dwt_max_level (Z.of_nat (length data)) (dec_len wave) in
  let coeffs := wavedec data "sym4" max_level in
  let threshold_arg := z2q 1 / z2q 10 in
  coeffs ←
    Py.for_each
      (λ (coeffs : list (list Qc)) ii,
         c ← Py.get coeffs ii;
         top ← Np.amax c;
         Some (<[Z.to_nat ii := threshold c (threshold_arg * top)]> coeffs))
      (Py2.range 1 (Z.of_nat (length coeffs))) coeffs;
  let data2 := waverec coeffs "sym4" in
  Some data2.

End eels.

(** ** Sample collaborators and data *)

(** Concrete collaborators on which the functions above can be run: a peak
    fitter that finds the peak where it is told to look, a least-squares
    solver by the normal equations, an edge detector, a log scaling and a
    cross-correlation that hand the image back, [355/113] for [np.pi] and the
    identity for the square root. *)
Module Sample.

Definition normal_lstsq (a b : list (Qc * Qc)) : mat2 :=
  let ata := Mat2 (Np.sum ((λ r : Qc * Qc, r.1 * r.1) <$> a))
                  (Np.sum ((λ r : Qc * Qc, r.1 * r.2) <$> a))
                  (Np.sum ((λ r : Qc * Qc, r.2 * r.1) <$> a))
                  (Np.sum ((λ r : Qc * Qc, r.2 * r.2) <$> a)) in
  let atb := Mat2 (Np.sum (zip_with (λ r s : Qc * Qc, r.1 * s.1) a b))
                  (Np.sum (zip_with (λ r s : Qc * Qc, r.1 * s.2) a b))
                  (Np.sum (zip_with (λ r s : Qc * Qc, r.2 * s.1) a b))
                  (Np.sum (zip_with (λ r s : Qc * Qc, r.2 * s.2) a b)) in
  match inv2 ata with
  | Some i => matmul2 i atb
  | None => Mat2 0 0 0 0
  end.

Definition nbed : NbedLib := {|
  fit_gaussian2D_mask := λ _ x y _, (x, y);
  lstsq := normal_lstsq;
  sobel := λ img, (img, img);
  image_logarizer := λ img, img;
  cross_corr := λ img _ _, img;
  np_pi := z2q 355 / z2q 113;
  pow_half := λ x, x
|}.


Definition pattern1 : image := [[z2q 1; z2q 2]; [z2q 3; z2q 4]].
Definition pattern2 : image := [[z2q 0; z2q 5]; [z2q 1; z2q 1]].


Definition disk : image := [[z2q 1; z2q 1]; [z2q 1; z2q 0]].

(** Three disks: the direct beam at pixel [(5, 5)] and its neighbours of
    index [(1, 0)] and [(0, 1)]. *)
Definition positions : list (Qc * Qc) :=
  [(z2q 5, z2q 5); (z2q 7, z2q 5); (z2q 5, z2q 8)].
Definition diff_spots : list (Qc * Qc) :=
  [(z2q 0, z2q 0); (z2q 1, z2q 0); (z2q 0, z2q 1)].

End Sample.

(* ================================================================== *)
(** * Further functions of the two files *)

(** ** The bins of [resizer] in closed form *)

(** The number of input samples that [resizer] has consumed when bin [n]
    starts: the least [m] with [n*M ≤ m*N]. *)
Definition consumed (M N : Z) (n : nat) : nat :=
  Z.to_nat ((Z.of_nat n * M + N - 1) / N).

(** The part of the last consumed sample that lies beyond the start of bin
    [n], the [carry] of the loop. *)
Definition leftover (data : list Qc) (N : Z) (n : nat) : Qc :=
  let M := Z.of_nat (length data) in
  let m := consumed M N n in
  (z2q (Z.of_nat m) - z2q (Z.of_nat n * M) / z2q N)
  * default 0 (data !! (m - 1)%nat).

(** Bin [n]: the leftover of the sample before it, the samples consumed for
    it, less the leftover for the next bin, scaled by [N/M]. *)
Definition overlap_bin (data : list Qc) (N : Z) (n : nat) : Qc :=
  let M := Z.of_nat (length data) in
  (leftover data N n
   + (Np.sum (take (consumed M N (S n)) data) - Np.sum (take (consumed M N n) data))
   - leftover data N (S n))
  * z2q N / z2q M.

(** ** Reading a pixel *)

(** [a[i][j]] and [d[i0][i1][i2][i3]] for indices within the array; [None]
    outside. *)
Definition at2 {A} (a : list (list A)) (i j : nat) : option A :=
  row ← a !! i; row !! j.

Definition at4 (d : data4d) (i0 i1 i2 i3 : nat) : option Qc :=
  pl ← d !! i0; c ← pl !! i1; at2 c i2 i3.

(** ** [data4Dto2D] *)

(** [np.transpose(data4D, (2, 3, 0, 1))]: the array whose entry [[ii][jj]]
    is the slice [data4D[:, :, ii, jj]]. *)
Definition transpose_2301 (data4D : data4d) : option data4d :=
  let '(_, _, d2, d3) := Np4.shape4 data4D in
  mapM (λ ii, mapM (λ jj, Np4.get_slice ii jj data4D) (Py.range (Z.of_nat d3)))
    (Py.range (Z.of_nat d2)).

(** Setting [shape] to [(s0*s1, s2*s3)] merges the first two axes and the
    last two, in row-major order. *)
Definition data4Dto2D (data4D : data4d) : option image :=
  data2D ← transpose_2301 data4D;
  Some (concat ((λ t : list image, (λ c : image, concat c) <$> t) <$> data2D)).

(** ** [ROI_from_image] *)

(** The comparison with [med_val*np.median(image)] gives an array of [1.0]
    and [0.0], which [astype(bool)] turns into the mask.  Every [style]
    other than ['over'] takes the second branch.  On an empty image the
    median is [nan] and no comparison holds.  The figure drawn when
    [showfig] is set is no part of the result. *)
Definition ROI_from_image (img : image) (med_val : Qc) (style : string)
    (showfig : bool) : list (list bool) :=
  let ROI : image :=
    if (style =? "over")%string
    then (λ row : list Qc,
            (λ v, match Np.median img with
                  | Some md => match v ?= med_val * md with Gt => 1 | _ => 0 end
                  | None => 0
                  end) <$> row) <$> img
    else (λ row : list Qc,
            (λ v, match Np.median img with
                  | Some md => match v ?= med_val * md with Lt => 1 | _ => 0 end
                  | None => 0
                  end) <$> row) <$> img in
  (λ row : list Qc, (λ v, negb (Qc_eq_bool v 0)) <$> row) <$> ROI.

(** The two tests of [ROI_from_image] against a threshold [t]. *)
Definition is_above (t v : Qc) : bool :=
  match v ?= t with Gt => true | _ => false end.

Definition is_below (t v : Qc) : bool :=
  match v ?= t with Lt => true | _ => false end.

(** ** [cleanEELS_3D] *)

(** [scipy.signal.medfilt(volume, kernel_size)], which raises on an even
    kernel size. *)
Class SignalLib := {
  medfilt : list Qc → Qc → option (list Qc)
}.

(** A three-dimensional array [data3D[e][jj][ii]], as the list of its
    planes. *)
Module Np3.

Definition shape3 (d : list image) : nat * nat * nat :=
  let p := default [] (head d) in
  let r := default [] (head p) in
  (length d, length p, length r).

(** [np.zeros((d0, d1, d2))]. *)
Definition zeros3 (d0 d1 d2 : nat) : list image :=
  replicate d0 (replicate d1 (replicate d2 0)).

(** [data3D[:, jj, ii]]. *)
Definition get_spectrum (jj ii : Z) (d : list image) : option (list Qc) :=
  mapM (λ plane : image, row ← Py.get plane jj; Py.get row ii) d.

(** [cleaned[:, jj, ii] = v]: [v] has the length of the first axis, or one
    element, which is broadcast; any other length raises [ValueError]. *)
Definition set_spectrum (jj ii : Z) (v : list Qc) (d : list image)
  : option (list image) :=
  v ← (if decide (length v = length d) then Some v
       else match v with
            | [x] => Some (replicate (length d) x)
            | _ => None
            end);
  Some (zip_with
          (λ (plane : image) x,
             alter (λ row, <[Z.to_nat ii := x]> row) (Z.to_nat jj) plane)
          d v).

End Np3.

Section eels3d.
Context `{PywtLib} `{SignalLib}.

(** The two [if method == ...] statements follow each other; [cleaned_3D] is
    rebound to [data3D] itself when [threshold] is not positive. *)
Definition cleanEELS_3D (data3D : list image) (method : string)
    (threshold_arg : Qc) : option (list image) :=
  let '(_, d1, d2) := Np3.shape3 data3D in
  let cleaned_3D := Np3.zeros3 (Np3.shape3 data3D).1.1 d1 d2 in
  cleaned_3D ←
    (if (method =? "wavelet")%string then
       match threshold_arg ?= 0 with
       | Gt =>
           Py.for_each
             (λ cleaned ii,
                Py.for_each
                  (λ cleaned jj,
                     sp ← Np3.get_spectrum jj ii data3D;
                     r ← cleanEELS_wavelet sp threshold_arg;
                     Np3.set_spectrum jj ii r cleaned)
                  (Py.range (Z.of_nat d1)) cleaned)
             (Py.range (Z.of_nat d2)) cleaned_3D
       | _ => Some data3D
       end
     else Some cleaned_3D);
  cleaned_3D ←
    (if (method =? "median")%string then
       match threshold_arg ?= 0 with
       | Gt =>
           Py.for_each
             (λ cleaned ii,
                Py.for_each
                  (λ cleaned jj,
                     sp ← Np3.get_spectrum jj ii data3D;
                     r ← medfilt sp threshold_arg;
                     Np3.set_spectrum jj ii r cleaned)
                  (Py.range (Z.of_nat d1)) cleaned)
             (Py.range (Z.of_nat d2)) cleaned_3D
       | _ => Some data3D
       end
     else Some cleaned_3D);
  Some cleaned_3D.

End eels3d.

(** ** [region_intensity] *)

(** [powerlaw_fit] of the same file, whose logarithms, exponential and real
    power have no rational model: its result [(fitted, power, const)] is
    taken as it comes. *)
Class EelsFit := {
  powerlaw_fit : list Qc → list Qc → Qc * Qc → option (list Qc * Qc * Qc)
}.

Module Py3.

(** [np.int(x)]: the integer part, towards zero. *)
Definition int_of (x : Qc) : Z := Z.quot (Qnum x) (Zpos (Qden x)).

(** [l[start:stop]]: a negative index counts from the end, and both are
    clipped to the list. *)
Definition clip (len i : Z) : nat :=
  Z.to_nat (if (i <? 0)%Z then Z.max (i + len) 0 else Z.min i len).

Definition slice {A} (l : list A) (start stop : Z) : list A :=
  let len := Z.of_nat (length l) in
  take (clip len stop - clip len start) (drop (clip len start) l).

End Py3.

Module Np1.

(** [np.diff]. *)
Definition diff (l : list Qc) : list Qc := zip_with (λ a b, b - a) l (tail l).

(** [a - b] for one-dimensional arrays: of one length, or one of them of
    length one; else [ValueError]. *)
Definition sub (a b : list Qc) : option (list Qc) :=
  if decide (length a = length b) then Some (zip_with Qcminus a b)
  else match a, b with
       | [x], _ => Some ((λ y, x - y) <$> b)
       | _, [y] => Some ((λ x, x - y) <$> a)
       | _, _ => None
       end.

End Np1.

(** [np.int((e - np.amin(xdata)) / np.median(np.diff(xdata)))]: the index of
    the energy [e] on the axis [xdata].  The minimum of an empty axis raises;
    a median that is [nan] (a single sample) or zero gives [nan] or [inf],
    whose conversion to an integer raises. *)
Definition energy_index (xdata : list Qc) (e : Qc) : option Z :=
  lo ← Np.amin xdata;
  step ← Np.median [Np1.diff xdata];
  if Qc_eq_bool step 0 then None else Some (Py3.int_of ((e - lo) / step)).

Section region.
Context `{EelsFit}.

(** The figure drawn when [showdata] is set is no part of the result; the
    two entries of [yrange] are read from [subtracted_data] in any case. *)
Definition region_intensity (xdata ydata : list Qc) (xrange peak_range : Qc * Qc)
    (showdata : bool) : option Qc :=
  '(fitted_data, _, _) ← powerlaw_fit xdata ydata xrange;
  subtracted_data ← Np1.sub ydata fitted_data;
  start_val ← energy_index xdata peak_range.1;
  stop_val ← energy_index xdata peak_range.2;
  data_floor ← Np.amin (Py3.slice subtracted_data start_val stop_val);
  let peak_sum :=
    Np.sum ((λ v, v - data_floor) <$> Py3.slice subtracted_data start_val stop_val) in
  yrange0 ← Py.get subtracted_data start_val;
  yrange1 ← Py.get subtracted_data stop_val;
  Some peak_sum.

End region.

(** Further sample collaborators: a wavelet transform with two levels that
    splits the spectrum in halves, a threshold that zeroes what is below the
    value, a median filter that hands the spectrum back, and a power-law fit
    that finds no background. *)
Module Sample2.

Definition pywt : PywtLib := {|
  dec_len := λ _, 8%Z;
  dwt_max_level := λ _ _, 1%Z;
  wavedec := λ data _ _,
    [take (length data / 2) data; drop (length data / 2) data];
  threshold := λ c value,
    (λ v, match v ?= value with Lt => 0 | _ => v end) <$> c;
  waverec := λ coeffs _, concat coeffs
|}.

Definition signal : SignalLib := {| medfilt := λ sp _, Some sp |}.

Definition fit : EelsFit := {|
  powerlaw_fit := λ xdata _ _, Some ((λ _, 0) <$> xdata, 0, 1)
|}.

Definition xdata : list Qc := [z2q 0; z2q 1; z2q 2; z2q 3].
Definition ydata : list Qc := [z2q 5; z2q 7; z2q 6; z2q 9].

Definition cube : list image :=
  [[[z2q 1; z2q 2]]; [[z2q 3; z2q 4]]; [[z2q 5; z2q 6]]; [[z2q 7; z2q 8]]].

End Sample2.

(** ** [test_aperture] and [aperture_image] *)

(** [q ** 0.5 <= r] for a sum of squares [q]: the root is not negative, so
    the comparison holds when [r] is not negative and [q <= r*r]. *)
Definition root_le (q r : Qc) : bool :=
  match 0 ?= r with
  | Gt => false
  | _ => match q ?= r * r with Gt => false | _ => true end
  end.

(** [rr <= radius] at row [y] and column [x] of [np.mgrid]: [center[0]] is
    the column and [center[1]] the row of the centre. *)
Definition in_aperture (center : Qc * Qc) (radius : Qc) (y x : nat) : bool :=
  let yy := z2q (Z.of_nat y) - center.2 in
  let xx := z2q (Z.of_nat x) - center.1 in
  root_le (yy * yy + xx * xx) radius.

(** [np.asarray(rr <= radius, dtype=...)] on a grid of [d0] rows and [d1]
    columns. *)
Definition aperture (d0 d1 : nat) (center : Qc * Qc) (radius : Qc) : image :=
  (λ y : nat,
     (λ x : nat, if in_aperture center radius y x then 1 else 0) <$> seq 0 d1)
  <$> seq 0 d0.

(** The figure drawn when [showfig] is set is no part of the result. *)
Definition test_aperture (pattern : image) (center : Qc * Qc) (radius : Qc)
    (showfig : bool) : image :=
  aperture (Np.shape2 pattern).1 (Np.shape2 pattern).2 center radius.

(** [apt_copy], the aperture repeated over the scan and transposed back,
    has [apt_copy[i0][i1][i2][i3] = aperture[i0][i1]]; the product with the
    data is summed over the first axis twice. *)
Definition aperture_image (data4D : data4d) (center : Qc * Qc) (radius : Qc)
  : image :=
  let '(d0, d1, d2, d3) := Np4.shape4 data4D in
  let apt := aperture d0 d1 center radius in
  let apt_mult :=
    zip_with
      (zip_with (λ a (c : image), (λ row : list Qc, (λ v, a * v) <$> row) <$> c))
      apt data4D in
  let zero := replicate d2 (replicate d3 0) in
  let sum0 := foldr (zip_with Np.add_image) (replicate d1 zero) apt_mult in
  foldr Np.add_image zero sum0.

(** The pixel [(i, j)] of an image, [0] outside of it. *)
Definition pix (c : image) (i j : nat) : Qc := default 0 (at2 c i j).

(* ================================================================== *)
(** * Properties *)

(** ** Arithmetic of [z2q] *)

Lemma z2q_add a b : z2q (a + b) = z2q a + z2q b.
Proof.
  apply Qc_is_canon. unfold z2q. cbn [Qcplus this Q2Qc].
  rewrite !Qred_correct, inject_Z_plus. reflexivity.
Qed.

Lemma z2q_mul a b : z2q (a * b) = z2q a * z2q b.
Proof.
  apply Qc_is_canon. unfold z2q. cbn [Qcmult this Q2Qc].
  rewrite !Qred_correct, inject_Z_mult. reflexivity.
Qed.

Lemma z2q_0 : z2q 0 = 0.
Proof. apply Qc_is_canon. reflexivity. Qed.

Lemma z2q_1 : z2q 1 = 1.
Proof. apply Qc_is_canon. reflexivity. Qed.

Lemma z2q_m1 : z2q (-1) = - 1.
Proof. apply Qc_is_canon. reflexivity. Qed.

Lemma z2q_neq0 a : a ≠ 0%Z → z2q a ≠ 0.
Proof.
  intros Ha E. apply Ha.
  assert (H : (inject_Z a == 0)%Q).
  { rewrite <- (Qred_correct (inject_Z a)). change (Qred (inject_Z a)) with (this (z2q a)).
    rewrite E. reflexivity. }
  unfold Qeq in H. cbn in H. lia.
Qed.

Lemma z2q_sub a b : z2q (a - b) = z2q a - z2q b.
Proof.
  replace a with ((a - b) + b)%Z at 2 by lia. rewrite z2q_add. ring.
Qed.

(** ** Loops *)

Lemma get_nonneg {A} (l : list A) (i : nat) : Py.get l (Z.of_nat i) = l !! i.
Proof.
  unfold Py.get. replace (0 <=? Z.of_nat i)%Z with true by (symmetry; apply Z.leb_le; lia).
  by rewrite Nat2Z.id.
Qed.

Lemma for_each_seq {S} (body : S → Z → option S) (Inv : nat → S → Prop) a len s :
  Inv a s →
  (∀ k s, (a ≤ k < a + len)%nat → Inv k s →
     ∃ s', body s (Z.of_nat k) = Some s' ∧ Inv (Datatypes.S k) s') →
  ∃ s', Py.for_each body (Z.of_nat <$> seq a len) s = Some s' ∧ Inv (a + len)%nat s'.
Proof.
  revert a s. induction len as [|len IH]; intros a s H0 Hstep; cbn.
  - exists s. by rewrite Nat.add_0_r.
  - destruct (Hstep a s) as (s1 & -> & H1); [lia | done |]. cbn.
    destruct (IH (Datatypes.S a) s1) as (s2 & -> & H2); [done | |].
    + intros k s' Hk. apply Hstep. lia.
    + exists s2. split; [done|]. by replace (a + Datatypes.S len)%nat with (Datatypes.S a + len)%nat by lia.
Qed.

Lemma for_each_range {S} (body : S → Z → option S) (Inv : nat → S → Prop) n s :
  Inv 0%nat s →
  (∀ k s, (k < n)%nat → Inv k s →
     ∃ s', body s (Z.of_nat k) = Some s' ∧ Inv (Datatypes.S k) s') →
  ∃ s', Py.for_each body (Py.range (Z.of_nat n)) s = Some s' ∧ Inv n s'.
Proof.
  intros H0 Hstep. unfold Py.range. rewrite Nat2Z.id.
  apply (for_each_seq body Inv 0 n s H0). intros k s' Hk. apply Hstep. lia.
Qed.

(** ** [resizer] *)

Lemma resizer_while_eq fuel data N M n m data_sum :
  resizer_while fuel data N M n m data_sum =
  if (m * N - n * M <? M)%Z then
    match fuel with
    | O => None
    | S fuel' =>
        d ← Py.get data m;
        resizer_while fuel' data N M n (m + 1) (data_sum + d)
    end
  else Some (m, data_sum).
Proof. by destruct fuel. Qed.

Lemma resizer_id (data : list Qc) :
  resizer data (Z.of_nat (length data)) = Some data.
Proof.
  unfold resizer, Np.zeros.
  replace (Z.of_nat (length data) <? 0)%Z with false by (symmetry; apply Z.ltb_ge; lia).
  cbn [mbind option_bind]. rewrite Nat2Z.id.
  set (M := length data).
  destruct (for_each_range (resizer_body data (Z.of_nat M) (Z.of_nat M))
              (λ k st, st = (take k data ++ replicate (M - k) 0, 0, Z.of_nat k))
              M (replicate M 0, 0, 0%Z)) as (st & -> & ->).
  - cbn. by rewrite Nat.sub_0_r.
  - intros k st Hk ->. unfold resizer_body.
    destruct (lookup_lt_is_Some_2 data k) as [d Hd]; [done|].
    replace (Z.to_nat ((Z.of_nat k + 1) * Z.of_nat M - Z.of_nat k * Z.of_nat M)) with M by lia.
    rewrite resizer_while_eq.
    replace (Z.of_nat k * Z.of_nat M - Z.of_nat k * Z.of_nat M <? Z.of_nat M)%Z
      with true by (symmetry; apply Z.ltb_lt; lia).
    destruct M as [|M'] eqn:EM; [lia|].
    rewrite get_nonneg, Hd. cbn [mbind option_bind].
    rewrite resizer_while_eq.
    replace ((Z.of_nat k + 1) * Z.of_nat (S M') - Z.of_nat k * Z.of_nat (S M') <? Z.of_nat (S M'))%Z
      with false by (symmetry; apply Z.ltb_ge; lia).
    cbn [mbind option_bind].
    replace (Z.of_nat k + 1 - 1)%Z with (Z.of_nat k) by lia.
    rewrite get_nonneg, Hd. cbn [mbind option_bind].
    eexists. split; [reflexivity|].
    assert (Hnz : z2q (Z.of_nat (S M')) ≠ 0) by (apply z2q_neq0; lia).
    f_equal; [f_equal|lia].
    + rewrite Nat2Z.id.
      rewrite insert_app_r_alt by (rewrite length_take; lia).
      rewrite length_take. replace (k - k `min` length data)%nat with 0%nat by lia.
      replace (S M' - k)%nat with (S (M' - k)) by lia. cbn.
      rewrite (take_S_r _ _ _ Hd), <- app_assoc. cbn. do 3 f_equal.
      rewrite z2q_mul. field. done.
    + rewrite z2q_mul. field. done.
  - cbn. subst M. by rewrite Nat.sub_diag, firstn_all, app_nil_r.
Qed.

Lemma sum_snoc l v : Np.sum (l ++ [v]) = Np.sum l + v.
Proof. unfold Np.sum. induction l as [|x l IH]; cbn; [ring|]. rewrite IH. ring. Qed.

Lemma sum_replicate_0 n : Np.sum (replicate n 0) = 0.
Proof. unfold Np.sum. induction n as [|n IH]; cbn; [done|]. rewrite IH. ring. Qed.

Lemma sum_app l1 l2 : Np.sum (l1 ++ l2) = Np.sum l1 + Np.sum l2.
Proof. unfold Np.sum. induction l1 as [|x l IH]; cbn; [ring|]. rewrite IH. ring. Qed.

Lemma sum_take_S (data : list Qc) m d :
  data !! m = Some d → Np.sum (take (S m) data) = Np.sum (take m data) + d.
Proof. intros H. by rewrite (take_S_r _ _ _ H), sum_snoc. Qed.

Section resizer_area.
Variable data : list Qc.
Variable N : Z.
Hypothesis HN : (1 ≤ N)%Z.

Lemma resizer_while_spec (n : Z) :
  (0 ≤ n)%Z → (n + 1 ≤ N)%Z →
  ∀ fuel (m : nat) s,
    ((n + 1) * Z.of_nat (length data) - Z.of_nat m * N ≤ Z.of_nat fuel)%Z →
    ((1 ≤ m)%nat → ((Z.of_nat m - 1) * N < (n + 1) * Z.of_nat (length data))%Z) →
    ∃ m' : nat,
      resizer_while fuel data N (Z.of_nat (length data)) n (Z.of_nat m) s
        = Some (Z.of_nat m', s + (Np.sum (take m' data) - Np.sum (take m data))) ∧
      ((n + 1) * Z.of_nat (length data) ≤ Z.of_nat m' * N)%Z ∧
      ((1 ≤ m')%nat → ((Z.of_nat m' - 1) * N < (n + 1) * Z.of_nat (length data))%Z).
Proof.
  intros Hn0 Hn1. induction fuel as [|fuel IH]; intros m s Hfuel Hm;
    rewrite resizer_while_eq;
    destruct (Z.ltb_spec (Z.of_nat m * N - n * Z.of_nat (length data))
                (Z.of_nat (length data))) as [Hc|Hc].
  - lia.
  - exists m. split; [|split; [lia|done]]. do 2 f_equal. ring.
  - assert (Hlt : (m < length data)%nat) by nia.
    destruct (lookup_lt_is_Some_2 data m Hlt) as [d Hd].
    rewrite get_nonneg, Hd. cbn [mbind option_bind].
    replace (Z.of_nat m + 1)%Z with (Z.of_nat (S m)) by lia.
    destruct (IH (S m) (s + d)) as (m' & -> & H1 & H2); [lia|lia|].
    exists m'. split; [|done]. do 2 f_equal.
    rewrite (sum_take_S _ _ _ Hd). ring.
  - exists m. split; [|split; [lia|done]]. do 2 f_equal. ring.
Qed.

Hypothesis HM : (1 ≤ length data)%nat.

Lemma resizer_body_inv (k : nat) st :
  (k < Z.to_nat N)%nat → resizer_inv data N k st →
  ∃ st', resizer_body data N (Z.of_nat (length data)) st (Z.of_nat k) = Some st'
         ∧ resizer_inv data N (S k) st'.
Proof.
  intros Hk (mn & filled & d & -> & Hlen & Hlo & Hhi & Hsum).
  set (M := Z.of_nat (length data)) in *.
  unfold resizer_body.
  destruct (resizer_while_spec (Z.of_nat k) ltac:(lia) ltac:(lia)
              (Z.to_nat ((Z.of_nat k + 1) * M - Z.of_nat mn * N)) mn
              ((z2q (Z.of_nat mn) - z2q (Z.of_nat k * M) / z2q N) * d))
    as (m' & Hw & H1 & H2); [subst M; lia | subst M; nia |].
  fold M in Hw, H1, H2. rewrite Hw.
  cbn [mbind option_bind].
  assert (Hm1 : (1 ≤ m')%nat) by (subst M; nia).
  assert (Hm2 : (m' - 1 < length data)%nat) by (specialize (H2 Hm1); subst M; nia).
  destruct (lookup_lt_is_Some_2 data (m' - 1) Hm2) as [d' Hd'].
  replace (Z.of_nat m' - 1)%Z with (Z.of_nat (m' - 1)) by lia.
  rewrite get_nonneg, Hd'. cbn [mbind option_bind].
  eexists. split; [reflexivity|].
  exists m', (filled ++ [((z2q (Z.of_nat mn) - z2q (Z.of_nat k * M) / z2q N) * d
                          + (Np.sum (take m' data) - Np.sum (take mn data))
                          - (z2q (Z.of_nat m') - z2q ((Z.of_nat k + 1) * M) / z2q N) * d')
                         * z2q N / z2q M]), d'.
  assert (HNz : z2q N ≠ 0) by (apply z2q_neq0; lia).
  assert (HMz : z2q M ≠ 0) by (apply z2q_neq0; subst M; lia).
  replace (Z.of_nat (S k)) with (Z.of_nat k + 1)%Z by lia.
  fold M.
  split; [|split; [|split; [|split]]].
  - f_equal. f_equal. rewrite Nat2Z.id.
    rewrite insert_app_r_alt by lia.
    rewrite Hlen, Nat.sub_diag.
    replace (Z.to_nat N - k)%nat with (S (Z.to_nat N - S k)) by lia.
    cbn. by rewrite <- app_assoc.
  - rewrite length_app. cbn. lia.
  - lia.
  - done.
  - rewrite sum_snoc, Hsum. by field.
Qed.

Lemma resizer_area :
  ∃ res, resizer data N = Some res ∧
         length res = Z.to_nat N ∧
         Np.sum res = Np.sum data * z2q N / z2q (Z.of_nat (length data)).
Proof.
  unfold resizer, Np.zeros.
  replace (N <? 0)%Z with false by (symmetry; apply Z.ltb_ge; lia).
  cbn [mbind option_bind].
  assert (HNz : z2q N ≠ 0) by (apply z2q_neq0; lia).
  assert (HMz : z2q (Z.of_nat (length data)) ≠ 0) by (apply z2q_neq0; lia).
  destruct (for_each_range (resizer_body data N (Z.of_nat (length data)))
              (resizer_inv data N) (Z.to_nat N)
              (replicate (Z.to_nat N) 0, 0, 0%Z))
    as (st & Hst & (mn & filled & d & -> & Hlen & Hlo & Hhi & Hsum)).
  - exists 0%nat, [], 0. split; [|split; [done|split; [lia|split; [lia|]]]].
    + rewrite Nat.sub_0_r. cbn [app]. do 2 f_equal; by field.
    + rewrite take_0. change (Np.sum []) with (Q2Qc 0). by field.
  - intros k st Hk. by apply resizer_body_inv.
  - rewrite Z2Nat.id in Hst, Hlo, Hhi, Hsum by lia. rewrite Hst. cbn [mbind option_bind].
    rewrite Nat.sub_diag. cbn [replicate]. rewrite app_nil_r.
    eexists. split; [reflexivity|]. split; [done|].
    assert (Hmn : mn = length data) by nia.
    rewrite Hsum, Hmn, z2q_mul, firstn_all.
    by field.
Qed.
End resizer_area.

(** ** [resizer2D] with the factors [(1, 1)] *)

Lemma round_div_1 d : Np.round_div d 1 = Some d.
Proof.
  unfold Np.round_div. cbn [Z.eqb]. rewrite Z.div_1_r.
  replace (d - d * 1)%Z with 0%Z by lia. reflexivity.
Qed.

Lemma zeros2_nat r c :
  Np.zeros2 (Z.of_nat r) (Z.of_nat c) = Some (replicate r (replicate c 0)).
Proof.
  unfold Np.zeros2.
  replace (Z.of_nat r <? 0)%Z with false by (symmetry; apply Z.ltb_ge; lia).
  replace (Z.of_nat c <? 0)%Z with false by (symmetry; apply Z.ltb_ge; lia).
  cbn. by rewrite !Nat2Z.id.
Qed.

Lemma fmap_const_replicate {A B} (l : list A) (y : B) :
  (λ _, y) <$> l = replicate (length l) y.
Proof. induction l as [|x l IH]; cbn; [done|]. by rewrite IH. Qed.

Lemma fmap_take_all (data : image) (C : nat) :
  Forall (λ r, length r = C) data →
  (λ row : list Qc, take C row ++ replicate 0 0) <$> data = data.
Proof.
  induction 1 as [|row data' Hrow _ IH]; cbn; [done|].
  cbn in IH. by rewrite IH, app_nil_r, <- Hrow, firstn_all.
Qed.

(** One column step of the second loop of [resizer2D] on a rectangular
    array: column [k] is read whole and written back at its place. *)
Lemma column_step (data : image) (C k : nat) :
  Forall (λ r, length r = C) data → (k < C)%nat →
  ∃ col,
    Np.get_col (Z.of_nat k) data = Some col ∧ length col = length data ∧
    zip_with (λ row v, <[k := v]> row)
      ((λ row : list Qc, take k row ++ replicate (C - k) 0) <$> data) col
    = (λ row : list Qc, take (S k) row ++ replicate (C - S k) 0) <$> data.
Proof.
  intros Hrect Hk. unfold Np.get_col.
  induction Hrect as [|row data Hrow Hrect IH].
  - by exists [].
  - destruct IH as (col & Hcol & Hlen & Hzip).
    destruct (lookup_lt_is_Some_2 row k) as [v Hv]; [lia|].
    exists (v :: col). cbn. rewrite get_nonneg, Hv. cbn.
    cbn in Hcol. rewrite Hcol. cbn.
    split; [done|]. split; [by rewrite Hlen|].
    rewrite Hzip. f_equal.
    rewrite insert_app_r_alt by (rewrite length_take; lia).
    rewrite length_take. replace (k - k `min` length row)%nat with 0%nat by lia.
    replace (C - k)%nat with (S (C - S k)) by lia. cbn.
    by rewrite (take_S_r _ _ _ Hv), <- app_assoc.
Qed.

Lemma resizer2D_id (data : image) :
  Forall (λ r, length r = (Np.shape2 data).2) data →
  resizer2D data (1%Z, 1%Z) = Some data.
Proof.
  intros Hrect. unfold resizer2D.
  set (R := length data). set (C := (Np.shape2 data).2) in *.
  change (Np.shape2 data).1 with R.
  cbn [fst snd]. rewrite !round_div_1. cbn [mbind option_bind].
  rewrite !zeros2_nat. cbn [mbind option_bind].
  destruct (for_each_range
              (λ rx yy, row ← Py.get data yy; r ← resizer row (Z.of_nat C);
                        Np.set_row yy r rx)
              (λ k rx, rx = take k data ++ replicate (R - k) (replicate C 0))
              R (replicate R (replicate C 0))) as (rx & -> & ->).
  - cbn. by rewrite Nat.sub_0_r.
  - intros k rx Hk ->.
    destruct (lookup_lt_is_Some_2 data k) as [row Hrow]; [done|].
    rewrite get_nonneg, Hrow. cbn [mbind option_bind].
    assert (Hlen : length row = C)
      by (eapply (Forall_lookup_1 _ _ _ _ Hrect); eassumption).
    rewrite <- Hlen, resizer_id. cbn [mbind option_bind].
    unfold Np.set_row. rewrite get_nonneg.
    rewrite lookup_app_r by (rewrite length_take; lia).
    rewrite lookup_replicate_2 by (rewrite length_take; lia).
    cbn [mbind option_bind]. rewrite length_replicate, Hlen.
    rewrite decide_True by done. rewrite Nat2Z.id.
    eexists. split; [reflexivity|].
    rewrite insert_app_r_alt by (rewrite length_take; lia).
    rewrite length_take. replace (k - k `min` length data)%nat with 0%nat by lia.
    replace (R - k)%nat with (S (R - S k)) by lia. cbn.
    by rewrite (take_S_r _ _ _ Hrow), <- app_assoc.
  - cbn [mbind option_bind]. subst R.
    rewrite Nat.sub_diag, firstn_all, app_nil_r.
    destruct (for_each_range
                (λ rs xx, c ← Np.get_col xx data; r ← resizer c (Z.of_nat (length data));
                          Np.set_col xx r rs)
                (λ k rs, rs = (λ row : list Qc, take k row ++ replicate (C - k) 0) <$> data)
                C (replicate (length data) (replicate C 0))) as (rs & -> & ->).
    + rewrite Nat.sub_0_r. symmetry. exact (fmap_const_replicate data (replicate C 0)).
    + intros k rs Hk ->.
      destruct (column_step data C k Hrect Hk) as (col & -> & Hlen & Hzip).
      cbn [mbind option_bind]. rewrite <- Hlen, resizer_id. cbn [mbind option_bind].
      unfold Np.set_col. rewrite length_fmap, decide_True by done.
      rewrite Nat2Z.id, Hzip. eauto.
    + f_equal. rewrite Nat.sub_diag. by apply fmap_take_all.
Qed.

(** ** [bin4D] with the factor [1] *)

Section bin4D_cells.
Variables d2 d3 : nat.

Local Abbreviation cell_rect := (Np4.cell_rect d2 d3).

Lemma filled_cell_ext p q c :
  cell_rect c →
  (∀ i j, (i < d2)%nat → (j < d3)%nat → p i j = q i j) →
  filled_cell p c = filled_cell q c.
Proof.
  intros [Hlen Hrows] Hpq. unfold filled_cell.
  apply imap_ext. intros i row Hi. apply imap_ext. intros j v Hj. cbn.
  rewrite Hpq; [done| |].
  - apply lookup_lt_Some in Hi. lia.
  - apply lookup_lt_Some in Hj.
    by rewrite (Forall_lookup_1 _ _ _ _ Hrows Hi) in Hj.
Qed.

Lemma filled_cell_all p c :
  cell_rect c → (∀ i j, (i < d2)%nat → (j < d3)%nat → p i j = true) →
  filled_cell p c = c.
Proof.
  intros Hc Hp. rewrite (filled_cell_ext p (λ _ _, true) c Hc Hp).
  unfold filled_cell. apply list_eq. intros i. rewrite list_lookup_imap.
  destruct (c !! i) as [row|]; cbn; [|done]. f_equal.
  apply list_eq. intros j. rewrite list_lookup_imap. by destruct (row !! j).
Qed.

Lemma filled_cell_none c :
  cell_rect c → filled_cell (λ _ _, false) c = replicate d2 (replicate d3 0).
Proof.
  intros [Hlen Hrows]. unfold filled_cell. apply list_eq. intros i.
  rewrite list_lookup_imap.
  destruct (c !! i) as [row|] eqn:Hi; cbn.
  - pose proof (lookup_lt_Some _ _ _ Hi).
    rewrite lookup_replicate_2 by lia. f_equal.
    rewrite <- (Forall_lookup_1 _ _ _ _ Hrows Hi).
    apply list_eq. intros j. rewrite list_lookup_imap.
    destruct (row !! j) eqn:Hj; cbn.
    + apply lookup_lt_Some in Hj. by rewrite lookup_replicate_2.
    + apply lookup_ge_None in Hj. symmetry. apply lookup_ge_None.
      by rewrite length_replicate.
  - apply lookup_ge_None in Hi. symmetry. apply lookup_ge_None.
    rewrite length_replicate. lia.
Qed.

(** Writing pixel [(ii, jj)] of a cell with the value the dataset has there
    marks that pixel. *)
Lemma cell_step p c (ii jj : nat) :
  cell_rect c → (ii < d2)%nat → (jj < d3)%nat →
  ∃ v, (row ← Py.get c (Z.of_nat ii); Py.get row (Z.of_nat jj)) = Some v ∧
       alter (λ row, <[jj := v]> row) ii (filled_cell p c)
       = filled_cell (λ i j, p i j || ((i =? ii)%nat && (j =? jj)%nat)) c.
Proof.
  intros [Hlen Hrows] Hii Hjj.
  destruct (lookup_lt_is_Some_2 c ii) as [row Hrow]; [lia|].
  pose proof (Forall_lookup_1 _ _ _ _ Hrows Hrow) as Hrl. cbn in Hrl.
  destruct (lookup_lt_is_Some_2 row jj) as [v Hv]; [lia|].
  exists v. rewrite get_nonneg, Hrow. cbn [mbind option_bind].
  rewrite get_nonneg. split; [done|].
  unfold filled_cell. apply list_eq. intros i.
  destruct (decide (i = ii)) as [->|Hne].
  - rewrite list_lookup_alter_eq, !list_lookup_imap, Hrow. cbn. f_equal.
    apply list_eq. intros j. destruct (decide (j = jj)) as [->|Hnj].
    + rewrite list_lookup_insert_eq by (rewrite length_imap; lia).
      rewrite list_lookup_imap, Hv. cbn.
      by rewrite !Nat.eqb_refl, orb_true_r.
    + rewrite list_lookup_insert_ne by done. rewrite !list_lookup_imap.
      destruct (row !! j); cbn; [|done].
      replace (j =? jj)%nat with false by (symmetry; by apply Nat.eqb_neq).
      by rewrite andb_false_r, orb_false_r.
  - rewrite list_lookup_alter_ne by done. rewrite !list_lookup_imap.
    destruct (c !! i) as [r|]; cbn; [|done]. f_equal.
    apply imap_ext. intros j x _. cbn.
    replace (i =? ii)%nat with false by (symmetry; by apply Nat.eqb_neq).
    by rewrite orb_false_r.
Qed.

Lemma slice_step (d1 : nat) p (data : data4d) (ii jj : nat) :
  Forall (λ pl : list image, length pl = d1 ∧ Forall cell_rect pl) data →
  (ii < d2)%nat → (jj < d3)%nat →
  ∃ sl, Np4.get_slice (Z.of_nat ii) (Z.of_nat jj) data = Some sl ∧
        length <$> sl = length <$> data ∧
        zip_with (zip_with (λ (c : image) v, alter (λ row, <[jj := v]> row) ii c))
          (filled p data) sl
        = filled (λ i j, p i j || ((i =? ii)%nat && (j =? jj)%nat)) data.
Proof.
  intros Hrect Hii Hjj. unfold Np4.get_slice, filled.
  induction Hrect as [|pl data [_ Hpl] _ (sl & Hsl & Hlen & Hzip)].
  - by exists [].
  - assert (∃ vs,
      mapM (λ c : image, row ← Py.get c (Z.of_nat ii); Py.get row (Z.of_nat jj)) pl
        = Some vs ∧ length vs = length pl ∧
      zip_with (λ (c : image) v, alter (λ row, <[jj := v]> row) ii c)
        (filled_cell p <$> pl) vs
      = filled_cell (λ i j, p i j || ((i =? ii)%nat && (j =? jj)%nat)) <$> pl)
      as (vs & Hvs & Hvl & Hvz).
    { clear -Hpl Hii Hjj. induction Hpl as [|c pl Hc _ (vs & Hvs & Hvl & Hvz)].
      - by exists [].
      - destruct (cell_step p c ii jj Hc Hii Hjj) as (v & Hv & Hal).
        exists (v :: vs). cbn. rewrite Hv. cbn. cbn in Hvs. rewrite Hvs. cbn.
        split; [done|]. split; [by rewrite Hvl|]. by rewrite Hal, Hvz. }
    exists (vs :: sl). cbn. rewrite Hvs. cbn. cbn in Hsl. rewrite Hsl. cbn.
    split; [done|]. split; [by rewrite Hvl, Hlen|]. by rewrite Hvz, Hzip.
Qed.

Lemma filled_ext (d1 : nat) p q (data : data4d) :
  Forall (λ pl : list image, length pl = d1 ∧ Forall cell_rect pl) data →
  (∀ i j, (i < d2)%nat → (j < d3)%nat → p i j = q i j) →
  filled p data = filled q data.
Proof.
  intros Hrect Hpq. unfold filled.
  apply Forall_fmap_ext_1. eapply Forall_impl; [exact Hrect|].
  intros pl [_ Hpl]. apply Forall_fmap_ext_1. eapply Forall_impl; [exact Hpl|].
  intros c Hc. by apply filled_cell_ext.
Qed.

Lemma filled_all (d1 : nat) p (data : data4d) :
  Forall (λ pl : list image, length pl = d1 ∧ Forall cell_rect pl) data →
  (∀ i j, (i < d2)%nat → (j < d3)%nat → p i j = true) →
  filled p data = data.
Proof.
  intros Hrect Hp. unfold filled.
  induction Hrect as [|pl data [_ Hpl] _ IH]; cbn; [done|]. rewrite IH. f_equal.
  induction Hpl as [|c pl Hc _ IH']; cbn; [done|].
  by rewrite IH', filled_cell_all.
Qed.

Lemma filled_none (d1 : nat) (data : data4d) :
  Forall (λ pl : list image, length pl = d1 ∧ Forall cell_rect pl) data →
  filled (λ _ _, false) data = Np4.zeros4 (length data) d1 d2 d3.
Proof.
  intros Hrect. unfold filled, Np4.zeros4.
  induction Hrect as [|pl data [Hl Hpl] _ IH]; cbn; [done|]. rewrite IH. f_equal.
  rewrite <- Hl. clear Hl IH.
  induction Hpl as [|c pl Hc _ IH']; cbn; [done|].
  by rewrite IH', filled_cell_none.
Qed.

End bin4D_cells.

Ltac written_cases :=
  unfold written;
  repeat match goal with
         | |- context [(?a <? ?b)%nat] => destruct (Nat.ltb_spec a b)
         | |- context [(?a =? ?b)%nat] => destruct (Nat.eqb_spec a b)
         end;
  cbn; try done; lia.

Lemma rect2_of_lengths {A} (sl : list (list A)) (d : nat) :
  Forall (λ r, length r = d) sl →
  Forall (λ r, length r = (Np.shape2 sl).2) sl.
Proof.
  intros Hd. destruct sl as [|r sl]; [constructor|].
  cbn. inversion Hd as [|? ? Hr Hsl]; subst. by constructor.
Qed.

Lemma rect2_of_fmap_length {A B} (sl : list (list A)) (data : list (list B)) d :
  length <$> sl = length <$> data →
  Forall (λ pl, length pl = d) data →
  Forall (λ r, length r = d) sl.
Proof.
  intros Hlen Hdata.
  assert (Hl : Forall (λ n, n = d) (length <$> sl)).
  { rewrite Hlen. apply Forall_fmap. exact Hdata. }
  apply Forall_fmap in Hl. exact Hl.
Qed.

Lemma bin4D_id (data4D : data4d) :
  Np4.rect4 data4D → bin4D data4D 1 = Some data4D.
Proof.
  unfold Np4.rect4, bin4D, Np4.mean_last2.
  destruct (Np4.shape4 data4D) as [[[d0 d1] d2] d3] eqn:Hs. intros Hrect.
  assert (Hd1 : Forall (λ pl : list image, length pl = d1) data4D)
    by (eapply Forall_impl; [exact Hrect|]; by intros pl [? _]).
  set (mean := (λ pl : list image, _ <$> pl) <$> data4D).
  assert (Hmlen : length <$> mean = length <$> data4D).
  { subst mean. rewrite <- list_fmap_compose. apply list_fmap_ext.
    intros _ pl _. cbn. by rewrite length_fmap. }
  rewrite (resizer2D_id mean)
    by (apply (rect2_of_lengths _ d1); by eapply rect2_of_fmap_length).
  cbn [mbind option_bind].
  assert (Hz : Np4.zeros4 (Np.shape2 mean).1 (Np.shape2 mean).2 d2 d3
               = filled (written 0 0) data4D).
  { rewrite (filled_ext d2 d3 d1 _ (λ _ _, false) _ Hrect) by (intros; written_cases).
    rewrite (filled_none d2 d3 d1 _ Hrect).
    destruct data4D as [|pl rest]; [done|].
    inversion Hd1 as [|? ? Hpl _]; subst. subst mean. cbn.
    by rewrite !length_fmap. }
  rewrite Hz.
  destruct (for_each_range
              (λ bd ii,
                 Py.for_each
                   (λ bd jj,
                      sl ← Np4.get_slice ii jj data4D;
                      r ← resizer2D sl (1%Z, 1%Z);
                      Np4.set_slice ii jj r bd)
                   (Py.range (Z.of_nat d3)) bd)
              (λ k bd, bd = filled (written k 0) data4D)
              d2 (filled (written 0 0) data4D)) as (bd & -> & ->).
  - done.
  - intros k bd0 Hk ->.
    destruct (for_each_range
                (λ bd jj,
                   sl ← Np4.get_slice (Z.of_nat k) jj data4D;
                   r ← resizer2D sl (1%Z, 1%Z);
                   Np4.set_slice (Z.of_nat k) jj r bd)
                (λ j bd, bd = filled (written k j) data4D)
                d3 (filled (written k 0) data4D)) as (bd & -> & ->).
    + done.
    + intros j bd1 Hj ->.
      destruct (slice_step d2 d3 d1 (written k j) data4D k j Hrect Hk Hj)
        as (sl & -> & Hlen & Hzip).
      cbn [mbind option_bind].
      rewrite (resizer2D_id sl)
        by (apply (rect2_of_lengths _ d1); by eapply rect2_of_fmap_length).
      cbn [mbind option_bind]. unfold Np4.set_slice.
      rewrite decide_True.
      2:{ rewrite Hlen. unfold filled. rewrite <- list_fmap_compose.
          apply list_fmap_ext. intros _ pl _. cbn. by rewrite length_fmap. }
      rewrite !Nat2Z.id, Hzip. eexists. split; [reflexivity|].
      apply (filled_ext d2 d3 d1 _ _ _ Hrect). intros; written_cases.
    + eexists. split; [reflexivity|].
      apply (filled_ext d2 d3 d1 _ _ _ Hrect). intros; written_cases.
  - f_equal. apply (filled_all d2 d3 d1 _ _ Hrect). intros; written_cases.
Qed.

(** ** [ROI_strain_map] *)

Lemma put_row_get (m : list bool) :
  ∀ row v1 rest,
    length row = length m →
    length v1 = length (filter (λ b, b = true) m) →
    ∃ r, Mask.put_row m row (v1 ++ rest) = (r, rest) ∧
         Mask.get_row m r = v1 ∧ length r = length m ∧
         ∀ j, m !! j = Some false → r !! j = row !! j.
Proof.
  induction m as [|b m IH]; intros row v1 rest Hrow Hv.
  - destruct row; [|done]. destruct v1; [|done]. by exists [].
  - destruct row as [|x row]; [done|]. cbn in Hrow.
    destruct b.
    + rewrite filter_cons_True in Hv by done.
      destruct v1 as [|v v1]; [done|]. cbn in Hv.
      destruct (IH row v1 rest) as (r & Hr & Hg & Hl & Hf); [lia|lia|].
      exists (v :: r). cbn. rewrite Hr. cbn. rewrite Hg, Hl.
      split; [done|]. split; [done|]. split; [done|].
      intros [|j]; cbn; [done|]. apply Hf.
    + rewrite filter_cons_False in Hv by done.
      destruct (IH row v1 rest) as (r & Hr & Hg & Hl & Hf); [lia|lia|].
      exists (x :: r). cbn. rewrite Hr. cbn. rewrite Hl.
      split; [done|]. split; [done|]. split; [done|].
      intros [|j]; cbn; [done|]. apply Hf.
Qed.

Lemma put_rows_get (mask : list (list bool)) :
  ∀ (a : image) vals,
    length <$> a = length <$> mask →
    length vals = Mask.count mask →
    Mask.get mask (Mask.put_rows mask a vals) = vals ∧
    length <$> Mask.put_rows mask a vals = length <$> mask ∧
    ∀ i j mrow, mask !! i = Some mrow → mrow !! j = Some false →
                Mask.put_rows mask a vals !! i ≫= (.!! j) = a !! i ≫= (.!! j).
Proof.
  unfold Mask.count, Mask.get.
  induction mask as [|m mask IH]; intros a vals Ha Hvals.
  - destruct a; [|done]. destruct vals; [|done]. cbn. split; [done|]. split; [done|].
    by intros [|?].
  - destruct a as [|row a]; [done|]. cbn in Ha. injection Ha as Hrow Ha.
    cbn in Hvals. rewrite filter_app, length_app in Hvals.
    set (n := length (filter (λ b, b = true) m)) in *.
    rewrite <- (take_drop n vals).
    destruct (put_row_get m row (take n vals) (drop n vals))
      as (r & Hr & Hg & Hl & Hf); [done|rewrite length_take; lia|].
    cbn. rewrite Hr.
    destruct (IH a (drop n vals)) as (IH1 & IH2 & IH3);
      [done|rewrite length_drop; lia|].
    cbn. rewrite Hg, IH1, Hl, IH2. split; [done|]. split; [done|].
    intros [|i] j mrow Hm Hj; cbn in *.
    + injection Hm as <-. by rewrite Hf.
    + by eapply IH3.
Qed.

Lemma zeros_like_lookup (ROI : list (list bool)) i j mrow b :
  ROI !! i = Some mrow → mrow !! j = Some b →
  Mask.zeros_like ROI !! i ≫= (.!! j) = Some 0.
Proof.
  intros Hi Hj. unfold Mask.zeros_like.
  rewrite list_lookup_fmap, Hi. cbn. by rewrite list_lookup_fmap, Hj.
Qed.

Lemma zeros_like_shape (ROI : list (list bool)) :
  length <$> Mask.zeros_like ROI = length <$> ROI.
Proof.
  unfold Mask.zeros_like. rewrite <- list_fmap_compose.
  apply list_fmap_ext. intros _ row _. cbn. by rewrite length_fmap.
Qed.

(** ** The disk locator *)

Lemma select_rows_first {A} (mask : list bool) :
  ∀ (a : list A) c x,
    length mask = length a →
    mask !! c = Some true →
    (∀ j, (j < c)%nat → mask !! j = Some false) →
    a !! c = Some x →
    ∃ l, select_rows mask a = Some (x :: l).
Proof.
  unfold select_rows.
  induction mask as [|b mask IH]; intros a c x Hlen Hc Hfirst Hx; [done|].
  destruct a as [|y a]; [done|]. cbn in Hlen.
  rewrite decide_True by done.
  destruct c as [|c]; cbn in Hc, Hx.
  - injection Hc as ->. injection Hx as ->. cbn. eauto.
  - pose proof (Hfirst 0%nat ltac:(lia)) as H0. cbn in H0. injection H0 as ->.
    destruct (IH a c x) as (l & Hl); [lia|done| |done|].
    + intros j Hj. apply (Hfirst (S j)). lia.
    + rewrite decide_True in Hl by lia. cbn. eauto.
Qed.

Lemma first_true (mask : list bool) :
  ∀ c, mask !! c = Some true →
       ∃ c', (c' ≤ c)%nat ∧ mask !! c' = Some true ∧
             ∀ j, (j < c')%nat → mask !! j = Some false.
Proof.
  induction mask as [|b mask IH]; intros c Hc; [done|].
  destruct b.
  - exists 0%nat. split; [lia|]. split; [done|]. lia.
  - destruct c as [|c]; [done|]. cbn in Hc.
    destruct (IH c Hc) as (c' & Hle & Hc' & Hfirst).
    exists (S c'). split; [lia|]. split; [done|].
    intros [|j] Hj; [done|]. cbn. apply Hfirst. lia.
Qed.

Lemma is_origin_true s : is_origin s = true ↔ s = (0, 0).
Proof.
  unfold is_origin. destruct s as [a b]. cbn. split.
  - intros [Ha Hb]%andb_prop.
    by rewrite (Qc_eq_bool_correct _ _ Ha), (Qc_eq_bool_correct _ _ Hb).
  - intros [= -> ->]. unfold Qc_eq_bool.
    by destruct (Qc_eq_dec 0 0).
Qed.

Section nbed_facts.
Context `{NbedLib}.

Lemma fit_nbed_disks_first corr_image disk_size positions diff_spots c :
  length positions = length diff_spots →
  (is_origin <$> diff_spots) !! c = Some true →
  (∀ j, (j < c)%nat → (is_origin <$> diff_spots) !! j = Some false) →
  ∃ cx cy,
    refined corr_image disk_size positions !! c = Some (cx, cy) ∧
    fit_nbed_disks corr_image disk_size positions diff_spots
    = Some (refined corr_image disk_size positions, (cx, cy),
            lstsq diff_spots
              ((λ p : Qc * Qc, (p.1 - cx, - p.2 - - cy))
               <$> refined corr_image disk_size positions)).
Proof.
  intros Hlen Hc Hfirst. unfold fit_nbed_disks. cbv zeta.
  set (n := length positions).
  match goal with
  | |- context [Py.for_each ?body (Py.range _) ?s0] =>
      destruct (for_each_range body
                  (λ k fl, fl = take k (refined corr_image disk_size positions)
                                ++ replicate (n - k) (0, 0))
                  n s0) as (fl & -> & ->)
  end.
  - rewrite Nat.sub_0_r. apply fmap_const_replicate.
  - intros k fl Hk ->.
    destruct (lookup_lt_is_Some_2 positions k) as [pos Hpos]; [done|].
    rewrite get_nonneg, Hpos. cbn [mbind option_bind].
    eexists. split; [reflexivity|].
    assert (Hr : refined corr_image disk_size positions !! k
                 = Some (fit_gaussian2D_mask corr_image pos.1 pos.2 disk_size))
      by (unfold refined; by rewrite list_lookup_fmap, Hpos).
    pose proof (lookup_lt_Some _ _ _ Hr) as Hlt.
    rewrite Nat2Z.id, insert_app_r_alt by (rewrite length_take; lia).
    rewrite length_take.
    replace (k - k `min` length (refined corr_image disk_size positions))%nat
      with 0%nat by lia.
    replace (n - k)%nat with (S (n - S k)) by lia. cbn.
    rewrite (take_S_r _ _ _ Hr), <- app_assoc. cbn.
    by destruct (fit_gaussian2D_mask corr_image pos.1 pos.2 disk_size).
  - cbn [mbind option_bind]. rewrite Nat.sub_diag. cbn [replicate].
    rewrite app_nil_r, firstn_all2 by (unfold refined; rewrite length_fmap; lia).
    set (fitted := refined corr_image disk_size positions).
    assert (Hfl : length fitted = length diff_spots)
      by (subst fitted; unfold refined; by rewrite length_fmap).
    destruct (lookup_lt_is_Some_2 fitted c) as [[cx cy] Hcxy].
    { apply lookup_lt_Some in Hc. rewrite length_fmap in Hc. lia. }
    exists cx, cy. split; [done|].
    destruct (select_rows_first (is_origin <$> diff_spots)
                ((λ p : Qc * Qc, (p.1, 0 - p.2)) <$> fitted) c (cx, 0 - cy))
      as (l & ->); [by rewrite !length_fmap|done|done| |].
    { by rewrite list_lookup_fmap, Hcxy. }
    cbn. rewrite Z2Nat.inj_0. cbn.
    assert (E1 : z2q (-1) * (0 - cy) = cy) by (rewrite z2q_m1; ring).
    assert (E2 : (λ p : Qc * Qc, (p.1 - cx, p.2 - (0 - cy)))
                   <$> ((λ p : Qc * Qc, (p.1, 0 - p.2)) <$> fitted)
                 = (λ p : Qc * Qc, (p.1 - cx, - p.2 - - cy)) <$> fitted).
    { rewrite <- list_fmap_compose. apply list_fmap_ext.
      intros _ [px py] _. cbn. f_equal. ring. }
    by rewrite E1, E2.
Qed.

Lemma fit_nbed_disks_Some corr_image disk_size positions diff_spots c :
  length positions = length diff_spots →
  diff_spots !! c = Some (0, 0) →
  is_Some (fit_nbed_disks corr_image disk_size positions diff_spots).
Proof.
  intros Hlen Hc.
  destruct (first_true (is_origin <$> diff_spots) c) as (c' & _ & Hc' & Hf).
  { rewrite list_lookup_fmap, Hc. cbn. f_equal; by apply is_origin_true. }
  destruct (fit_nbed_disks_first corr_image disk_size positions diff_spots c'
              Hlen Hc' Hf) as (cx & cy & _ & ->).
  eauto.
Qed.

End nbed_facts.

(** ** The strain extractors *)

Lemma for_each_None {S I} (body : S → I → option S) (idx : list I) (i : I) :
  i ∈ idx → (∀ s, body s i = None) → ∀ s, Py.for_each body idx s = None.
Proof.
  intros Hi Hfail. induction Hi as [i idx|i j idx _ IH]; intros s; cbn.
  - by rewrite Hfail.
  - destruct (body s j); cbn; [by apply IH|done].
Qed.

Lemma for_each_ext {S I} (body body' : S → I → option S) (idx : list I) :
  (∀ s i, body s i = body' s i) →
  ∀ s, Py.for_each body idx s = Py.for_each body' idx s.
Proof.
  intros Hext. induction idx as [|i idx IH]; intros s; cbn; [done|].
  rewrite Hext. destruct (body' s i); cbn; [apply IH|done].
Qed.

Lemma inv2_right (a b : mat2) : inv2 a = Some b → matmul2 a b = eye2.
Proof.
  unfold inv2. destruct (Qc_eq_dec (det2 a) 0) as [|Hd]; [done|].
  intros [= <-]. destruct a as [a00 a01 a10 a11].
  unfold matmul2, eye2, det2 in *. cbn in *. f_equal; by field.
Qed.

Lemma inv2_left (a b : mat2) : inv2 a = Some b → matmul2 b a = eye2.
Proof.
  unfold inv2. destruct (Qc_eq_dec (det2 a) 0) as [|Hd]; [done|].
  intros [= <-]. destruct a as [a00 a01 a10 a11].
  unfold matmul2, eye2, det2 in *. cbn in *. f_equal; by field.
Qed.

Lemma inv2_Some (a : mat2) : det2 a ≠ 0 → is_Some (inv2 a).
Proof. intros Hd. unfold inv2. destruct (Qc_eq_dec (det2 a) 0); [done|eauto]. Qed.

Section strain_facts.
Context `{NbedLib}.

(** The loop over the patterns writes, slot by slot, what mapping
    [strain_of] over the stack gives, and fails where that fails. *)
Lemma strain_loop (f : image → option mat2) (inverse_axes : mat2)
    (stack : list image) :
  Py.for_each
    (λ st ii,
       pattern ← Py.get stack ii;
       axes ← f pattern;
       Some (store_strain axes inverse_axes ii st))
    (Py.range (Z.of_nat (length stack)))
    (replicate (length stack) 0, replicate (length stack) 0,
     replicate (length stack) 0, replicate (length stack) 0)
  = e ← mapM (λ pattern, axes ← f pattern; Some (strain_of axes inverse_axes)) stack;
    Some ((λ x : Qc * Qc * Qc * Qc, x.1.1.1) <$> e,
          (λ x : Qc * Qc * Qc * Qc, x.1.1.2) <$> e,
          (λ x : Qc * Qc * Qc * Qc, x.1.2) <$> e,
          (λ x : Qc * Qc * Qc * Qc, x.2) <$> e).
Proof.
  set (n := length stack).
  destruct (mapM _ stack) as [e|] eqn:Hm; cbn [mbind option_bind].
  - apply mapM_Some_1 in Hm.
    pose proof (Forall2_length _ _ _ Hm) as Hlen. fold n in Hlen.
    match goal with
    | |- Py.for_each ?body _ ?s0 = _ =>
        destruct (for_each_range body
                    (λ k st,
                       st = (take k ((λ x : Qc * Qc * Qc * Qc, x.1.1.1) <$> e)
                               ++ replicate (n - k) 0,
                             take k ((λ x : Qc * Qc * Qc * Qc, x.1.1.2) <$> e)
                               ++ replicate (n - k) 0,
                             take k ((λ x : Qc * Qc * Qc * Qc, x.1.2) <$> e)
                               ++ replicate (n - k) 0,
                             take k ((λ x : Qc * Qc * Qc * Qc, x.2) <$> e)
                               ++ replicate (n - k) 0))
                    n s0) as (st & -> & ->)
    end.
    + by rewrite Nat.sub_0_r.
    + intros k st Hk ->.
      destruct (lookup_lt_is_Some_2 stack k) as [pattern Hp]; [done|].
      destruct (Forall2_lookup_l _ _ _ _ _ Hm Hp) as (x & Hx & Hf).
      rewrite get_nonneg, Hp. cbn [mbind option_bind].
      destruct (f pattern) as [axes|]; [|done]. cbn in Hf. injection Hf as <-.
      cbn [mbind option_bind]. eexists. split; [reflexivity|].
      unfold store_strain. rewrite Nat2Z.id.
      rewrite !insert_app_r_alt by (rewrite length_take, length_fmap; lia).
      rewrite !length_take, !length_fmap.
      replace (k - k `min` length e)%nat with 0%nat by lia.
      replace (n - k)%nat with (S (n - S k)) by lia. cbn [replicate insert list_insert].
      rewrite (take_S_r ((λ x : Qc * Qc * Qc * Qc, x.1.1.1) <$> e) k _)
        by (by rewrite list_lookup_fmap, Hx).
      rewrite (take_S_r ((λ x : Qc * Qc * Qc * Qc, x.1.1.2) <$> e) k _)
        by (by rewrite list_lookup_fmap, Hx).
      rewrite (take_S_r ((λ x : Qc * Qc * Qc * Qc, x.1.2) <$> e) k _)
        by (by rewrite list_lookup_fmap, Hx).
      rewrite (take_S_r ((λ x : Qc * Qc * Qc * Qc, x.2) <$> e) k _)
        by (by rewrite list_lookup_fmap, Hx).
      by rewrite <- !app_assoc.
    + rewrite Nat.sub_diag. cbn [replicate]. rewrite !app_nil_r.
      by rewrite !firstn_all2 by (rewrite length_fmap; lia).
  - apply mapM_None_1, Exists_exists in Hm. destruct Hm as (pattern & Hin & Hf).
    apply list_elem_of_lookup in Hin. destruct Hin as [i Hi].
    apply (for_each_None _ _ (Z.of_nat i)).
    + unfold Py.range. rewrite Nat2Z.id. apply list_elem_of_fmap_2.
      apply elem_of_seq. apply lookup_lt_Some in Hi. lia.
    + intros st. rewrite get_nonneg, Hi. cbn [mbind option_bind].
      by destruct (f pattern).
Qed.

Lemma zeros_nat n : Np.zeros (Z.of_nat n) = Some (replicate n 0).
Proof.
  unfold Np.zeros.
  replace (Z.of_nat n <? 0)%Z with false by (symmetry; apply Z.ltb_ge; lia).
  by rewrite Nat2Z.id.
Qed.

Lemma strain_in_ROI_pipeline stack center_disk disk_list pos_list reference_axes
    med_factor :
  strain_in_ROI stack center_disk disk_list pos_list reference_axes med_factor
  = strain_pipeline (edge_prep med_factor) edge_prep_disk stack center_disk
      disk_list pos_list reference_axes.
Proof.
  unfold strain_in_ROI, strain_pipeline, pipeline_reference. cbv zeta.
  rewrite !zeros_nat. cbn [mbind option_bind].
  assert (Hloop : ∀ inverse_axes,
    Py.for_each
      (λ st ii,
         pattern ← Py.get stack ii;
         '(_, _, pattern_axes) ←
           fit_nbed_disks
             (cross_corr (clamp_outliers med_factor (sobel (image_logarizer pattern)).1)
                (sobel center_disk).1 (z2q 1 / z2q 10))
             (pow_half (Np.sum2 center_disk / np_pi)) disk_list pos_list;
         Some (store_strain pattern_axes inverse_axes ii st))
      (Py.range (Z.of_nat (length stack)))
      (replicate (length stack) 0, replicate (length stack) 0,
       replicate (length stack) 0, replicate (length stack) 0)
    = e ← mapM (λ pattern,
                  axes ← pipeline_axes (edge_prep med_factor) edge_prep_disk
                           center_disk disk_list pos_list pattern;
                  Some (strain_of axes inverse_axes)) stack;
      Some ((λ x : Qc * Qc * Qc * Qc, x.1.1.1) <$> e,
            (λ x : Qc * Qc * Qc * Qc, x.1.1.2) <$> e,
            (λ x : Qc * Qc * Qc * Qc, x.1.2) <$> e,
            (λ x : Qc * Qc * Qc * Qc, x.2) <$> e)).
  { intros inverse_axes. rewrite <- strain_loop. apply for_each_ext.
    intros st ii. destruct (Py.get stack ii) as [pattern|]; [|done].
    cbn [mbind option_bind]. unfold pipeline_axes, edge_prep, edge_prep_disk.
    by destruct (fit_nbed_disks _ _ _ _) as [[[? ?] ?]|]. }
  destruct reference_axes as [r|]; cbn [mbind option_bind].
  - destruct (inv2 r) as [inverse_axes|]; cbn [mbind option_bind]; [apply Hloop|done].
  - destruct (Np.mean_stack stack) as [mean_cbed|]; cbn [mbind option_bind]; [|done].
    unfold pipeline_axes, edge_prep, edge_prep_disk.
    destruct (fit_nbed_disks
                (cross_corr
                   (clamp_outliers med_factor (sobel (image_logarizer mean_cbed)).1) _ _)
                _ _ _) as [[[? ?] mean_axes]|];
      cbn [mbind option_bind]; [|done].
    destruct (inv2 mean_axes) as [inverse_axes|]; cbn [mbind option_bind]; [|done].
    apply Hloop.
Qed.

Lemma strain_oldstyle_pipeline stack center_disk disk_list pos_list reference_axes :
  strain_oldstyle stack center_disk disk_list pos_list reference_axes
  = strain_pipeline (λ pattern, pattern) (λ disk, disk) stack center_disk
      disk_list pos_list reference_axes.
Proof.
  unfold strain_oldstyle, strain_pipeline, pipeline_reference. cbv zeta.
  rewrite !zeros_nat. cbn [mbind option_bind].
  assert (Hloop : ∀ inverse_axes,
    Py.for_each
      (λ st ii,
         pattern ← Py.get stack ii;
         '(_, _, pattern_axes) ←
           fit_nbed_disks (cross_corr pattern center_disk (z2q 1 / z2q 10))
             (pow_half (Np.sum2 center_disk / np_pi)) disk_list pos_list;
         Some (store_strain pattern_axes inverse_axes ii st))
      (Py.range (Z.of_nat (length stack)))
      (replicate (length stack) 0, replicate (length stack) 0,
       replicate (length stack) 0, replicate (length stack) 0)
    = e ← mapM (λ pattern,
                  axes ← pipeline_axes (λ pattern, pattern) (λ disk, disk)
                           center_disk disk_list pos_list pattern;
                  Some (strain_of axes inverse_axes)) stack;
      Some ((λ x : Qc * Qc * Qc * Qc, x.1.1.1) <$> e,
            (λ x : Qc * Qc * Qc * Qc, x.1.1.2) <$> e,
            (λ x : Qc * Qc * Qc * Qc, x.1.2) <$> e,
            (λ x : Qc * Qc * Qc * Qc, x.2) <$> e)).
  { intros inverse_axes. rewrite <- strain_loop. apply for_each_ext.
    intros st ii. destruct (Py.get stack ii) as [pattern|]; [|done].
    cbn [mbind option_bind]. unfold pipeline_axes.
    by destruct (fit_nbed_disks _ _ _ _) as [[[? ?] ?]|]. }
  destruct reference_axes as [r|]; cbn [mbind option_bind].
  - destruct (inv2 r) as [inverse_axes|]; cbn [mbind option_bind]; [apply Hloop|done].
  - destruct (Np.mean_stack stack) as [mean_cbed|]; cbn [mbind option_bind]; [|done].
    unfold pipeline_axes.
    destruct (fit_nbed_disks (cross_corr mean_cbed _ _) _ _ _)
      as [[[? ?] mean_axes]|]; cbn [mbind option_bind]; [|done].
    destruct (inv2 mean_axes) as [inverse_axes|]; cbn [mbind option_bind]; [|done].
    apply Hloop.
Qed.

End strain_facts.

(** *** The mean of a stack of equal patterns *)

Lemma add_image_scaled (k : nat) (P : image) :
  Np.add_image ((λ row : list Qc, (λ v, z2q (Z.of_nat k) * v) <$> row) <$> P) P
  = (λ row : list Qc, (λ v, z2q (Z.of_nat (S k)) * v) <$> row) <$> P.
Proof.
  unfold Np.add_image. induction P as [|row P IH]; cbn; [done|].
  cbn in IH. rewrite IH. f_equal. clear IH.
  induction row as [|v row IH]; cbn; [done|]. cbn in IH. rewrite IH. f_equal.
  rewrite Nat2Z.inj_succ, <- Z.add_1_r, z2q_add, z2q_1. ring.
Qed.

Lemma foldl_add_image (n k : nat) (P : image) :
  foldl Np.add_image
    ((λ row : list Qc, (λ v, z2q (Z.of_nat k) * v) <$> row) <$> P) (replicate n P)
  = (λ row : list Qc, (λ v, z2q (Z.of_nat (k + n)) * v) <$> row) <$> P.
Proof.
  revert k. induction n as [|n IH]; intros k; cbn [replicate foldl].
  - by rewrite Nat.add_0_r.
  - rewrite add_image_scaled, IH. by replace (S k + n)%nat with (k + S n)%nat by lia.
Qed.

Lemma image_map_id (g : Qc → Qc) (P : image) :
  (∀ v, g v = v) → (λ row : list Qc, g <$> row) <$> P = P.
Proof.
  intros Hg. induction P as [|row P IH]; cbn; [done|]. cbn in IH. rewrite IH. f_equal.
  induction row as [|v row IH']; cbn; [done|]. cbn in IH'. by rewrite IH', Hg.
Qed.

Lemma image_map_compose (g h : Qc → Qc) (P : image) :
  (λ row : list Qc, g <$> row) <$> ((λ row : list Qc, h <$> row) <$> P)
  = (λ row : list Qc, (λ v, g (h v)) <$> row) <$> P.
Proof.
  rewrite <- list_fmap_compose. apply list_fmap_ext. intros _ row _. cbn.
  by rewrite <- list_fmap_compose.
Qed.

Lemma mean_stack_replicate (n : nat) (P : image) :
  Np.mean_stack (replicate (S n) P) = Some P.
Proof.
  unfold Np.mean_stack. cbn [replicate]. f_equal.
  rewrite <- (image_map_id (λ v, z2q (Z.of_nat 1) * v) P) at 1
    by (intros v; replace (z2q (Z.of_nat 1)) with (Q2Qc 1) by (symmetry; apply z2q_1); ring).
  rewrite foldl_add_image, image_map_compose.
  cbn [length]. rewrite length_replicate.
  apply image_map_id. intros v.
  assert (Hnz : z2q (Z.of_nat (S n)) ≠ 0) by (apply z2q_neq0; lia).
  replace (1 + n)%nat with (S n) by lia. by field.
Qed.

(** *** What the pipeline emits *)

Section pipeline_facts.
Context `{NbedLib}.
Variables prep prep_disk : image → image.

Lemma pipeline_axes_Some center_disk disk_list pos_list c pattern :
  length disk_list = length pos_list →
  pos_list !! c = Some (0, 0) →
  is_Some (pipeline_axes prep prep_disk center_disk disk_list pos_list pattern).
Proof.
  intros Hlen Hc. unfold pipeline_axes.
  destruct (fit_nbed_disks_Some
              (cross_corr (prep pattern) (prep_disk center_disk) (z2q 1 / z2q 10))
              (pow_half (Np.sum2 center_disk / np_pi)) disk_list pos_list c Hlen Hc)
    as [[[? ?] axes] ->].
  cbn. eauto.
Qed.

Lemma pipeline_components stack center_disk disk_list pos_list reference_axes
    c R Rinv :
  length disk_list = length pos_list →
  pos_list !! c = Some (0, 0) →
  pipeline_reference prep prep_disk stack center_disk disk_list pos_list
    reference_axes = Some R →
  inv2 R = Some Rinv →
  ∃ e_xx e_xy e_th e_yy,
    strain_pipeline prep prep_disk stack center_disk disk_list pos_list
      reference_axes = Some (e_xx, e_xy, e_th, e_yy) ∧
    ∀ ii pattern, stack !! ii = Some pattern →
      ∃ pattern_axes,
        pipeline_axes prep prep_disk center_disk disk_list pos_list pattern
          = Some pattern_axes ∧
        let T := matmul2 pattern_axes Rinv in
        let S := sub2 T eye2 in
        e_xx !! ii = Some (- m00 S) ∧
        e_xy !! ii = Some (- (m01 S + m10 S)) ∧
        e_th !! ii = Some (m01 S - m10 S) ∧
        e_yy !! ii = Some (- m11 S).
Proof.
  intros Hlen Hc HR Hinv. unfold strain_pipeline.
  rewrite HR. cbn [mbind option_bind]. rewrite Hinv. cbn [mbind option_bind].
  destruct (mapM_is_Some_2
              (λ pattern,
                 axes ← pipeline_axes prep prep_disk center_disk disk_list pos_list pattern;
                 Some (strain_of axes Rinv)) stack) as [e He].
  { apply Forall_forall. intros pattern _. cbn.
    destruct (pipeline_axes_Some center_disk disk_list pos_list c pattern Hlen Hc)
      as [axes ->].
    cbn. eauto. }
  rewrite He. cbn [mbind option_bind]. do 4 eexists. split; [reflexivity|].
  intros ii pattern Hp. apply mapM_Some_1 in He.
  destruct (Forall2_lookup_l _ _ _ _ _ He Hp) as (x & Hx & Hf).
  destruct (pipeline_axes prep prep_disk center_disk disk_list pos_list pattern)
    as [axes|]; [|done].
  cbn in Hf. injection Hf as <-. exists axes. split; [done|].
  cbn zeta. rewrite !list_lookup_fmap, Hx. by cbn.
Qed.

Lemma strain_of_same (A Ainv : mat2) :
  inv2 A = Some Ainv → strain_of A Ainv = (0, 0, 0, 0).
Proof.
  intros Hinv. unfold strain_of. rewrite (inv2_right _ _ Hinv).
  unfold sub2, eye2. cbn. repeat f_equal; ring.
Qed.

Lemma mapM_replicate {A B} (g : A → option B) (n : nat) (x : A) (y : B) :
  g x = Some y → mapM g (replicate n x) = Some (replicate n y).
Proof.
  intros Hg. induction n as [|n IH]; cbn; [done|]. rewrite Hg. cbn.
  cbn in IH. by rewrite IH.
Qed.

Lemma pipeline_same (n : nat) (P : image) center_disk disk_list pos_list
    reference_axes A :
  pipeline_axes prep prep_disk center_disk disk_list pos_list P = Some A →
  det2 A ≠ 0 →
  pipeline_reference prep prep_disk (replicate n P) center_disk disk_list pos_list
    reference_axes = Some A →
  strain_pipeline prep prep_disk (replicate n P) center_disk disk_list pos_list
    reference_axes
  = Some (replicate n 0, replicate n 0, replicate n 0, replicate n 0).
Proof.
  intros HA Hdet HR. destruct (inv2_Some A Hdet) as [Ainv Hinv].
  unfold strain_pipeline. rewrite HR. cbn [mbind option_bind].
  rewrite Hinv. cbn [mbind option_bind].
  rewrite (mapM_replicate _ n P (0, 0, 0, 0))
    by (rewrite HA; cbn; by rewrite (strain_of_same _ _ Hinv)).
  cbn [mbind option_bind]. by rewrite !fmap_replicate.
Qed.

End pipeline_facts.

(** ** The rotation objective *)






(* ================================================================== *)
(** * The claims *)

(** C1.  In [strain_in_ROI] and in [strain_oldstyle], when the disk lists have
    one length and contain the direct beam, and the reference basis [R]
    (supplied, or fitted to the mean pattern) is inverted to [Rinv], the
    function returns four arrays and, for every pattern index [ii], with
    [pattern_axes] the basis fitted to that pattern, [T = pattern_axes · Rinv]
    and [S = T − I]: [e_xx[ii] = -S[0,0]], [e_xy[ii] = -(S[0,1]+S[1,0])],
    [e_theta[ii] = S[0,1]-S[1,0]] and [e_yy[ii] = -S[1,1]]. *)
Theorem strain_components `{NbedLib} (stack : list image) (center_disk : image)
    (disk_list pos_list : list (Qc * Qc)) (reference_axes : option mat2)
    (med_factor : Qc) (c : nat) :
  length disk_list = length pos_list →
  pos_list !! c = Some (0, 0) →
  (∀ R Rinv,
     pipeline_reference (edge_prep med_factor) edge_prep_disk stack center_disk
       disk_list pos_list reference_axes = Some R →
     inv2 R = Some Rinv →
     ∃ e_xx e_xy e_th e_yy,
       strain_in_ROI stack center_disk disk_list pos_list reference_axes med_factor
         = Some (e_xx, e_xy, e_th, e_yy) ∧
       ∀ ii pattern, stack !! ii = Some pattern →
         ∃ pattern_axes,
           pipeline_axes (edge_prep med_factor) edge_prep_disk center_disk
             disk_list pos_list pattern = Some pattern_axes ∧
           let T := matmul2 pattern_axes Rinv in
           let S := sub2 T eye2 in
           e_xx !! ii = Some (- m00 S) ∧
           e_xy !! ii = Some (- (m01 S + m10 S)) ∧
           e_th !! ii = Some (m01 S - m10 S) ∧
           e_yy !! ii = Some (- m11 S)) ∧
  (∀ R Rinv,
     pipeline_reference (λ pattern, pattern) (λ disk, disk) stack center_disk
       disk_list pos_list reference_axes = Some R →
     inv2 R = Some Rinv →
     ∃ e_xx e_xy e_th e_yy,
       strain_oldstyle stack center_disk disk_list pos_list reference_axes
         = Some (e_xx, e_xy, e_th, e_yy) ∧
       ∀ ii pattern, stack !! ii = Some pattern →
         ∃ pattern_axes,
           pipeline_axes (λ pattern, pattern) (λ disk, disk) center_disk
             disk_list pos_list pattern = Some pattern_axes ∧
           let T := matmul2 pattern_axes Rinv in
           let S := sub2 T eye2 in
           e_xx !! ii = Some (- m00 S) ∧
           e_xy !! ii = Some (- (m01 S + m10 S)) ∧
           e_th !! ii = Some (m01 S - m10 S) ∧
           e_yy !! ii = Some (- m11 S)).
Proof.
  intros Hlen Hc. split; intros R Rinv HR Hinv.
  - rewrite strain_in_ROI_pipeline. by eapply pipeline_components.
  - rewrite strain_oldstyle_pipeline. by eapply pipeline_components.
Qed.

Lemma strain_components_witness :
  is_Some (strain_in_ROI (H:=Sample.nbed) [Sample.pattern1; Sample.pattern2]
             Sample.disk Sample.positions Sample.diff_spots None (z2q 10)) ∧
  is_Some (strain_oldstyle (H:=Sample.nbed) [Sample.pattern1; Sample.pattern2]
             Sample.disk Sample.positions Sample.diff_spots None).
Proof.
  destruct (strain_components (H:=Sample.nbed) [Sample.pattern1; Sample.pattern2]
              Sample.disk Sample.positions Sample.diff_spots None (z2q 10) 0)
    as [Hroi Hold]; [reflexivity | reflexivity |].
  split.
  - edestruct Hroi as (? & ? & ? & ? & -> & _);
      [vm_compute; reflexivity | vm_compute; reflexivity | eauto].
  - edestruct Hold as (? & ? & ? & ? & -> & _);
      [vm_compute; reflexivity | vm_compute; reflexivity | eauto].
Defined.

(** C2.  With [N] positions and [N] index pairs of which exactly the one at
    [c] is [(0, 0)], [fit_nbed_disks] returns the positions refined by the
    peak fitter with search radius [disk_size], the refined position
    [(cx, cy)] of the disk of index [(0, 0)] in image convention, and what
    the least-squares solver makes of [diff_spots] and the refined positions
    with [y] negated and the position of that disk subtracted. *)
Theorem fit_nbed_disks_returns `{NbedLib} (corr_image : image) (disk_size : Qc)
    (positions diff_spots : list (Qc * Qc)) (c : nat) :
  length positions = length diff_spots →
  diff_spots !! c = Some (0, 0) →
  (∀ j, diff_spots !! j = Some (0, 0) → j = c) →
  ∃ cx cy,
    refined corr_image disk_size positions !! c = Some (cx, cy) ∧
    fit_nbed_disks corr_image disk_size positions diff_spots
    = Some (refined corr_image disk_size positions, (cx, cy),
            lstsq diff_spots
              ((λ p : Qc * Qc, (p.1 - cx, - p.2 - - cy))
               <$> refined corr_image disk_size positions)).
Proof.
  intros Hlen Hc Honly. apply fit_nbed_disks_first; [done| |].
  - rewrite list_lookup_fmap, Hc. cbn. f_equal; by apply is_origin_true.
  - intros j Hj. rewrite list_lookup_fmap.
    destruct (lookup_lt_is_Some_2 diff_spots j) as [s Hs].
    { apply lookup_lt_Some in Hc. lia. }
    rewrite Hs. cbn. f_equal. destruct (is_origin s) eqn:Ho; [|done].
    apply is_origin_true in Ho. subst s. apply Honly in Hs. lia.
Qed.

Lemma fit_nbed_disks_returns_witness :
  is_Some (fit_nbed_disks (H:=Sample.nbed) Sample.pattern1 (z2q 2)
             Sample.positions Sample.diff_spots).
Proof.
  destruct (fit_nbed_disks_returns (H:=Sample.nbed) Sample.pattern1 (z2q 2)
              Sample.positions Sample.diff_spots 0)
    as (cx & cy & _ & ->); [reflexivity | reflexivity | | eauto].
  intros [|[|[|j]]] Hj; [reflexivity | | | ];
    apply (f_equal (λ o, (λ s : Qc * Qc, (this s.1, this s.2)) <$> o)) in Hj;
    vm_compute in Hj; discriminate.
Defined.

(** C3.  For an array of length [M ≥ 1] and a target length [N ≥ 1],
    [resizer] returns an array of length [N] whose sum is
    [sum(data) * N / M]. *)
Theorem resizer_preserves_area (data : list Qc) (N : Z) :
  (1 ≤ length data)%nat → (1 ≤ N)%Z →
  ∃ res, resizer data N = Some res ∧
         length res = Z.to_nat N ∧
         Np.sum res = Np.sum data * z2q N / z2q (Z.of_nat (length data)).
Proof. intros HM HN. by apply resizer_area. Qed.

Lemma resizer_preserves_area_witness :
  is_Some (resizer [z2q 1; z2q 2; z2q 3] 2).
Proof.
  destruct (resizer_preserves_area [z2q 1; z2q 2; z2q 3] 2)
    as (res & -> & _); [cbn; lia | lia | eauto].
Defined.

(** C4.  When every pattern of the stack is the pattern [P], whose fitted
    basis [A] is not singular, [strain_in_ROI] returns four arrays of zeros,
    be the reference the mean pattern or the basis [A] itself. *)
Theorem same_pattern_zero_strain `{NbedLib} (n : nat) (P center_disk : image)
    (disk_list pos_list : list (Qc * Qc)) (med_factor : Qc) (A : mat2) :
  pipeline_axes (edge_prep med_factor) edge_prep_disk center_disk disk_list
    pos_list P = Some A →
  det2 A ≠ 0 →
  strain_in_ROI (replicate (S n) P) center_disk disk_list pos_list None med_factor
  = Some (replicate (S n) 0, replicate (S n) 0, replicate (S n) 0, replicate (S n) 0)
  ∧ strain_in_ROI (replicate n P) center_disk disk_list pos_list (Some A) med_factor
    = Some (replicate n 0, replicate n 0, replicate n 0, replicate n 0).
Proof.
  intros HA Hdet. rewrite !strain_in_ROI_pipeline. split.
  - apply (pipeline_same _ _ (S n) P _ _ _ None A HA Hdet).
    unfold pipeline_reference. by rewrite mean_stack_replicate.
  - by apply (pipeline_same _ _ n P _ _ _ (Some A) A HA Hdet).
Qed.

Lemma same_pattern_zero_strain_witness :
  strain_in_ROI (H:=Sample.nbed) (replicate 3 Sample.pattern1) Sample.disk
    Sample.positions Sample.diff_spots None (z2q 10)
  = Some (replicate 3 0, replicate 3 0, replicate 3 0, replicate 3 0).
Proof.
  edestruct (same_pattern_zero_strain (H:=Sample.nbed) 2 Sample.pattern1
               Sample.disk Sample.positions Sample.diff_spots (z2q 10))
    as [Hmean _]; [| | exact Hmean].
  - vm_compute. reflexivity.
  - intros E. apply (f_equal this) in E. vm_compute in E. discriminate.
Defined.

(** C5.  [strain_in_ROI] is the pipeline of the specification with the log
    scaling, edge detection and outlier clamping of the pattern and the edge
    detection of the reference disk as its preprocessing stages, and
    [strain_oldstyle] is the same pipeline with the identity in the place of
    these stages, on every input. *)
Theorem strain_oldstyle_skips_preprocessing `{NbedLib} (stack : list image)
    (center_disk : image) (disk_list pos_list : list (Qc * Qc))
    (reference_axes : option mat2) (med_factor : Qc) :
  strain_in_ROI stack center_disk disk_list pos_list reference_axes med_factor
  = strain_pipeline (edge_prep med_factor) edge_prep_disk stack center_disk
      disk_list pos_list reference_axes
  ∧ strain_oldstyle stack center_disk disk_list pos_list reference_axes
    = strain_pipeline (λ pattern, pattern) (λ disk, disk) stack center_disk
        disk_list pos_list reference_axes.
Proof. split; [apply strain_in_ROI_pipeline | apply strain_oldstyle_pipeline]. Qed.




(** C7.  On a dataset whose four axes have one length each, [bin4D] with the
    factor 1 returns the dataset itself. *)
Theorem bin4D_factor_one (data4D : data4d) :
  Np4.rect4 data4D → bin4D data4D 1 = Some data4D.
Proof. apply bin4D_id. Qed.

Lemma bin4D_factor_one_witness :
  bin4D [[ [[z2q 1; z2q 2]]; [[z2q 3; z2q 4]] ]] 1
  = Some [[ [[z2q 1; z2q 2]]; [[z2q 3; z2q 4]] ]].
Proof.
  apply bin4D_factor_one. unfold Np4.rect4, Np4.cell_rect. cbn.
  repeat constructor.
Defined.

(** C8.  When there are as many values as true pixels in the mask,
    [ROI_strain_map] returns a map of the shape of the mask that is zero at
    every false position, and reading the map at the true positions gives
    the values back. *)
Theorem ROI_strain_map_roundtrip (strain_ROI : list Qc) (ROI : list (list bool)) :
  length strain_ROI = Mask.count ROI →
  ∃ strain_map,
    ROI_strain_map strain_ROI ROI = Some strain_map ∧
    length <$> strain_map = length <$> ROI ∧
    (∀ i j mrow, ROI !! i = Some mrow → mrow !! j = Some false →
                 strain_map !! i ≫= (.!! j) = Some 0) ∧
    Mask.get ROI strain_map = strain_ROI.
Proof.
  intros Hlen. unfold ROI_strain_map, Mask.put. cbv zeta.
  rewrite decide_True by done. eexists. split; [reflexivity|].
  destruct (put_rows_get ROI (Mask.zeros_like ROI) strain_ROI
              (zeros_like_shape ROI) Hlen) as (Hget & Hshape & Hfalse).
  split; [done|]. split; [|done].
  intros i j mrow Hi Hj. rewrite (Hfalse i j mrow Hi Hj).
  by eapply zeros_like_lookup.
Qed.

Lemma ROI_strain_map_roundtrip_witness :
  is_Some (ROI_strain_map [z2q 7; z2q 8; z2q 9]
             [[true; false]; [false; true]; [true; false]]).
Proof.
  destruct (ROI_strain_map_roundtrip [z2q 7; z2q 8; z2q 9]
              [[true; false]; [false; true]; [true; false]])
    as (strain_map & -> & _); [reflexivity | eauto].
Defined.

(** C9.  [resizer(data, len(data))] is [data], for every array. *)
Theorem resizer_same_length (data : list Qc) :
  resizer data (Z.of_nat (length data)) = Some data.
Proof. apply resizer_id. Qed.

(** C10.  The result of [cleanEELS_wavelet] does not depend on its argument
    [threshold]: any two values give the same result on the same
    spectrum. *)
Theorem cleanEELS_wavelet_ignores_threshold `{PywtLib} (data : list Qc)
    (t1 t2 : Qc) :
  cleanEELS_wavelet data t1 = cleanEELS_wavelet data t2.
Proof. reflexivity. Qed.

(* ================================================================== *)
(** * Further properties *)

(** ** [resizer]: the bins in closed form *)

Lemma ceil_bounds (N a : Z) :
  (1 ≤ N)%Z → (0 ≤ a)%Z →
  (a ≤ (a + N - 1) / N * N)%Z ∧ (((a + N - 1) / N - 1) * N < a)%Z ∧
  (0 ≤ (a + N - 1) / N)%Z.
Proof.
  intros HN Ha.
  pose proof (Z.mul_div_le (a + N - 1) N ltac:(lia)).
  pose proof (Z.mul_succ_div_gt (a + N - 1) N ltac:(lia)).
  assert (0 ≤ (a + N - 1) / N)%Z by (apply Z.div_pos; lia).
  nia.
Qed.

Lemma ceil_unique (N a m : Z) :
  (1 ≤ N)%Z → (0 ≤ a)%Z → (a ≤ m * N)%Z → ((m - 1) * N < a)%Z →
  m = ((a + N - 1) / N)%Z.
Proof.
  intros HN Ha Hlo Hhi. destruct (ceil_bounds N a HN Ha) as (H1 & H2 & H3). nia.
Qed.

Section resizer_closed.
Variable data : list Qc.
Variable N : Z.
Hypothesis HN : (1 ≤ N)%Z.
Hypothesis HM : (1 ≤ length data)%nat.

Lemma consumed_bounds (k : nat) :
  (Z.of_nat k * Z.of_nat (length data)
   ≤ Z.of_nat (consumed (Z.of_nat (length data)) N k) * N)%Z ∧
  ((Z.of_nat (consumed (Z.of_nat (length data)) N k) - 1) * N
   < Z.of_nat k * Z.of_nat (length data))%Z.
Proof.
  unfold consumed.
  destruct (ceil_bounds N (Z.of_nat k * Z.of_nat (length data)) HN ltac:(lia))
    as (H1 & H2 & H3).
  rewrite Z2Nat.id by done. done.
Qed.

Lemma consumed_unique (k m : nat) :
  (Z.of_nat k * Z.of_nat (length data) ≤ Z.of_nat m * N)%Z →
  ((Z.of_nat m - 1) * N < Z.of_nat k * Z.of_nat (length data))%Z →
  m = consumed (Z.of_nat (length data)) N k.
Proof.
  intros Hlo Hhi. unfold consumed.
  rewrite <- (ceil_unique N (Z.of_nat k * Z.of_nat (length data)) (Z.of_nat m)
               HN ltac:(lia) Hlo Hhi). lia.
Qed.

Lemma resizer_body_closed (k : nat) (filled : list Qc) :
  (k < Z.to_nat N)%nat → length filled = k →
  resizer_body data N (Z.of_nat (length data))
    (filled ++ replicate (Z.to_nat N - k) 0, leftover data N k,
     Z.of_nat (consumed (Z.of_nat (length data)) N k)) (Z.of_nat k)
  = Some ((filled ++ [overlap_bin data N k]) ++ replicate (Z.to_nat N - S k) 0,
          leftover data N (S k),
          Z.of_nat (consumed (Z.of_nat (length data)) N (S k))).
Proof.
  intros Hk Hlen. set (M := Z.of_nat (length data)).
  destruct (consumed_bounds k) as [Hlo Hhi]. fold M in Hlo, Hhi.
  unfold resizer_body.
  destruct (resizer_while_spec data N HN (Z.of_nat k) ltac:(lia) ltac:(lia)
              (Z.to_nat ((Z.of_nat k + 1) * M - Z.of_nat (consumed M N k) * N))
              (consumed M N k) (leftover data N k))
    as (m' & Hw & H1 & H2); [subst M; lia | subst M; nia |].
  fold M in Hw, H1, H2. rewrite Hw. cbn [mbind option_bind].
  assert (Hm1 : (1 ≤ m')%nat) by (subst M; nia).
  specialize (H2 Hm1).
  assert (Hm' : m' = consumed M N (S k)).
  { apply consumed_unique; fold M; lia. }
  assert (Hm2 : (m' - 1 < length data)%nat) by (subst M; nia).
  destruct (lookup_lt_is_Some_2 data (m' - 1) Hm2) as [d' Hd'].
  replace (Z.of_nat m' - 1)%Z with (Z.of_nat (m' - 1)) by lia.
  rewrite get_nonneg, Hd'. cbn [mbind option_bind].
  assert (Hleft : leftover data N (S k)
                  = (z2q (Z.of_nat m') - z2q ((Z.of_nat k + 1) * M) / z2q N) * d').
  { unfold leftover. fold M. rewrite <- Hm', Hd'. cbn [default from_option].
    by replace (Z.of_nat (S k)) with (Z.of_nat k + 1)%Z by lia. }
  rewrite <- Hleft. f_equal. f_equal; [f_equal|by rewrite Hm'].
  rewrite Nat2Z.id, insert_app_r_alt by lia.
  rewrite Hlen, Nat.sub_diag.
  replace (Z.to_nat N - k)%nat with (S (Z.to_nat N - S k)) by lia.
  cbn [replicate insert list_insert]. rewrite <- app_assoc. cbn [app].
  do 2 f_equal. unfold overlap_bin. fold M. by rewrite <- Hm'.
Qed.

Lemma resizer_closed :
  resizer data N = Some (overlap_bin data N <$> seq 0 (Z.to_nat N)).
Proof.
  unfold resizer, Np.zeros.
  replace (N <? 0)%Z with false by (symmetry; apply Z.ltb_ge; lia).
  cbn [mbind option_bind].
  destruct (for_each_range (resizer_body data N (Z.of_nat (length data)))
              (λ k st, st = ((overlap_bin data N <$> seq 0 k)
                               ++ replicate (Z.to_nat N - k) 0,
                             leftover data N k,
                             Z.of_nat (consumed (Z.of_nat (length data)) N k)))
              (Z.to_nat N) (replicate (Z.to_nat N) 0, 0, 0%Z)) as (st & Hst & ->).
  - rewrite Nat.sub_0_r. cbn [seq fmap list_fmap app].
    assert (HNz : z2q N ≠ 0) by (apply z2q_neq0; lia).
    assert (Hc0 : consumed (Z.of_nat (length data)) N 0 = 0%nat).
    { unfold consumed. change (Z.of_nat 0) with 0%Z.
      rewrite Z.mul_0_l, Z.div_small by lia. done. }
    assert (Hl0 : leftover data N 0 = 0).
    { unfold leftover. rewrite Hc0. change (Z.of_nat 0) with 0%Z.
      rewrite Z.mul_0_l, z2q_0. by field. }
    by rewrite Hc0, Hl0.
  - intros k st Hk ->.
    rewrite resizer_body_closed by (rewrite ?length_fmap, ?length_seq; done).
    eexists. split; [reflexivity|].
    by rewrite seq_S, fmap_app.
  - rewrite Z2Nat.id in Hst by lia. rewrite Hst. cbn [mbind option_bind].
    by rewrite Nat.sub_diag, app_nil_r.
Qed.

End resizer_closed.

Lemma sum_take_add (l : list Qc) (a b : nat) :
  Np.sum (take (a + b) l) = Np.sum (take a l) + Np.sum (take b (drop a l)).
Proof.
  unfold Np.sum. revert l. induction a as [|a IH]; intros l.
  - rewrite take_0, drop_0. cbn. ring.
  - destruct l as [|x l]; cbn.
    + rewrite take_nil. cbn. ring.
    + rewrite IH. ring.
Qed.

(** *** Decimation by a whole factor *)

Lemma resizer_blocks (data : list Qc) (k N : nat) :
  (1 ≤ k)%nat → (1 ≤ N)%nat → length data = (k * N)%nat →
  resizer data (Z.of_nat N)
  = Some ((λ n, Np.sum (take k (drop (n * k) data)) / z2q (Z.of_nat k))
          <$> seq 0 N).
Proof.
  intros Hk HN Hlen.
  rewrite resizer_closed by lia. rewrite Nat2Z.id. f_equal.
  apply list_fmap_ext. intros i n Hn. apply lookup_seq in Hn as [-> Hi]. cbn [Nat.add].
  assert (Hc : ∀ j, consumed (Z.of_nat (length data)) (Z.of_nat N) j = (j * k)%nat).
  { intros j. symmetry. apply consumed_unique; nia. }
  assert (HNz : z2q (Z.of_nat N) ≠ 0) by (apply z2q_neq0; lia).
  assert (Hkz : z2q (Z.of_nat k) ≠ 0) by (apply z2q_neq0; lia).
  assert (Hl : ∀ j, leftover data (Z.of_nat N) j = 0).
  { intros j. unfold leftover. rewrite Hc, Hlen.
    replace (Z.of_nat j * Z.of_nat (k * N))%Z
      with (Z.of_nat (j * k) * Z.of_nat N)%Z by lia.
    rewrite z2q_mul. by field. }
  unfold overlap_bin. rewrite !Hl, !Hc.
  replace (S i * k)%nat with (i * k + k)%nat by lia.
  rewrite sum_take_add, Hlen, Nat2Z.inj_mul, z2q_mul. by field.
Qed.

(** *** Interpolation by a whole factor *)

Lemma resizer_repeats (data : list Qc) (k : nat) :
  (1 ≤ k)%nat → (1 ≤ length data)%nat →
  ∃ res, resizer data (Z.of_nat (k * length data)) = Some res ∧
         length res = (k * length data)%nat ∧
         ∀ n, (n < k * length data)%nat → res !! n = data !! (n / k)%nat.
Proof.
  intros Hk HM. set (M := length data) in *.
  rewrite resizer_closed by (fold M; nia). rewrite Nat2Z.id.
  eexists. split; [reflexivity|]. split; [by rewrite length_fmap, length_seq|].
  intros n Hn. rewrite list_lookup_fmap, lookup_seq_lt by done. cbn [fmap option_fmap option_map Nat.add].
  pose proof (Nat.div_mod_eq n k) as Hdiv.
  pose proof (Nat.mod_upper_bound n k ltac:(lia)) as Hmod.
  set (q := (n / k)%nat) in *. set (r := (n mod k)%nat) in *.
  assert (Hq : (q < M)%nat) by nia.
  destruct (lookup_lt_is_Some_2 data q Hq) as [d Hd]. rewrite Hd. f_equal.
  assert (Hc1 : consumed (Z.of_nat M) (Z.of_nat (k * M)) (S n) = S q).
  { symmetry. apply consumed_unique; nia. }
  assert (HMz : z2q (Z.of_nat M) ≠ 0) by (apply z2q_neq0; lia).
  assert (Hkz : z2q (Z.of_nat k) ≠ 0) by (apply z2q_neq0; lia).
  assert (Hl1 : leftover data (Z.of_nat (k * M)) (S n)
                = (z2q (Z.of_nat q) + 1
                   - (z2q (Z.of_nat n) + 1) / z2q (Z.of_nat k)) * d).
  { unfold leftover. fold M. rewrite Hc1.
    replace (S q - 1)%nat with q by lia. rewrite Hd. cbn [default from_option].
    rewrite !Nat2Z.inj_succ, <- !Z.add_1_r, Nat2Z.inj_mul.
    rewrite !z2q_mul, !z2q_add, z2q_1. change (id d) with d. by field. }
  unfold overlap_bin. fold M. rewrite Hl1, Hc1.
  destruct (decide (r = 0%nat)) as [Hr|Hr].
  - assert (Hc0 : consumed (Z.of_nat M) (Z.of_nat (k * M)) n = q).
    { symmetry. apply consumed_unique; nia. }
    assert (Hnq : Z.of_nat n = (Z.of_nat q * Z.of_nat k)%Z) by nia.
    assert (Hl0 : leftover data (Z.of_nat (k * M)) n = 0).
    { unfold leftover. fold M. rewrite Hc0, Hnq, Nat2Z.inj_mul, !z2q_mul. by field. }
    rewrite Hl0, Hc0, (sum_take_S _ _ _ Hd).
    rewrite Hnq, Nat2Z.inj_mul, !z2q_mul. by field.
  - assert (Hc0 : consumed (Z.of_nat M) (Z.of_nat (k * M)) n = S q).
    { symmetry. apply consumed_unique; nia. }
    assert (Hl0 : leftover data (Z.of_nat (k * M)) n
                  = (z2q (Z.of_nat q) + 1 - z2q (Z.of_nat n) / z2q (Z.of_nat k)) * d).
    { unfold leftover. fold M. rewrite Hc0.
      replace (S q - 1)%nat with q by lia. rewrite Hd. cbn [default from_option].
      rewrite !Nat2Z.inj_succ, <- !Z.add_1_r, Nat2Z.inj_mul.
      rewrite !z2q_mul, !z2q_add, z2q_1. change (id d) with d. by field. }
    rewrite Hl0, Hc0, Nat2Z.inj_mul, !z2q_mul. by field.
Qed.

(** *** An empty array *)

Lemma resizer_nil (N : Z) : (1 ≤ N)%Z → resizer [] N = None.
Proof.
  intros HN. unfold resizer, Np.zeros.
  replace (N <? 0)%Z with false by (symmetry; apply Z.ltb_ge; lia).
  cbn [mbind option_bind].
  rewrite (for_each_None _ _ 0%Z); [reflexivity| |].
  - unfold Py.range. destruct (Z.to_nat N) as [|n] eqn:E; [lia|].
    cbn. apply list_elem_of_here.
  - intros [[res carry] m]. unfold resizer_body.
    change (Z.of_nat (length (@nil Qc))) with 0%Z.
    rewrite resizer_while_eq.
    destruct (m * N - 0 * 0 <? 0)%Z.
    + destruct (Z.to_nat ((0 + 1) * 0 - m * N)); [reflexivity|].
      unfold Py.get. change (Z.of_nat (length (@nil Qc))) with 0%Z.
      destruct (0 <=? m)%Z; [by rewrite lookup_nil|].
      destruct (0 <=? 0 + m)%Z; [by rewrite lookup_nil|reflexivity].
    + cbn [mbind option_bind]. unfold Py.get.
      change (Z.of_nat (length (@nil Qc))) with 0%Z.
      destruct (0 <=? m - 1)%Z; [by rewrite lookup_nil|].
      destruct (0 <=? 0 + (m - 1))%Z; [by rewrite lookup_nil|reflexivity].
Qed.

(** ** [resizer2D]: shape and total intensity *)

Lemma sum_overlap_bins (d : list Qc) (N : Z) :
  (1 ≤ N)%Z → (1 ≤ length d)%nat →
  Np.sum (overlap_bin d N <$> seq 0 (Z.to_nat N))
  = Np.sum d * z2q N / z2q (Z.of_nat (length d)).
Proof.
  intros HN HM. destruct (resizer_area d N HN HM) as (res & Hres & _ & Hsum).
  rewrite resizer_closed in Hres by done. injection Hres as <-. done.
Qed.

Lemma sum_fmap_swap {A B} (f : A → B → Qc) (la : list A) (lb : list B) :
  Np.sum ((λ a, Np.sum ((λ b, f a b) <$> lb)) <$> la)
  = Np.sum ((λ b, Np.sum ((λ a, f a b) <$> la)) <$> lb).
Proof.
  unfold Np.sum. induction la as [|a la IH]; cbn.
  - induction lb as [|b lb IH]; cbn; [done|]. rewrite <- IH. ring.
  - rewrite IH. clear IH. induction lb as [|b lb IH]; cbn; [ring|].
    rewrite <- IH. ring.
Qed.

Lemma sum_fmap_scale {A} (g : A → Qc) (c : Qc) (l : list A) :
  Np.sum ((λ x, g x * c) <$> l) = Np.sum (g <$> l) * c.
Proof.
  unfold Np.sum. induction l as [|x l IH]; cbn; [ring|]. rewrite IH. ring.
Qed.

Lemma get_col_fmap_seq (g : list Qc → nat → Qc) (data : image) (n xx : nat) :
  (xx < n)%nat →
  Np.get_col (Z.of_nat xx) ((λ row, g row <$> seq 0 n) <$> data)
  = Some ((λ row, g row xx) <$> data).
Proof.
  intros Hxx. unfold Np.get_col. induction data as [|row data IH]; cbn; [done|].
  rewrite get_nonneg, list_lookup_fmap, lookup_seq_lt by done. cbn.
  cbn in IH. by rewrite IH.
Qed.

Section resizer2D_sum.
Variable data : image.
Variables R C : nat.
Variables s0 s1 N0 N1 : Z.
Hypothesis HR : length data = R.
Hypothesis HC : Forall (λ r : list Qc, length r = C) data.
Hypothesis HR1 : (1 ≤ R)%nat.
Hypothesis HC1 : (1 ≤ C)%nat.
Hypothesis Hs0 : Np.round_div (Z.of_nat R) s0 = Some N0.
Hypothesis Hs1 : Np.round_div (Z.of_nat C) s1 = Some N1.
Hypothesis HN0 : (1 ≤ N0)%Z.
Hypothesis HN1 : (1 ≤ N1)%Z.

Lemma resizer2D_closed :
  resizer2D data (s0, s1)
  = Some ((λ a, (λ xx, overlap_bin
                         ((λ row, overlap_bin row N1 xx) <$> data) N0 a)
                <$> seq 0 (Z.to_nat N1))
          <$> seq 0 (Z.to_nat N0)).
Proof.
  unfold resizer2D.
  assert (Hshape : Np.shape2 data = (R, C)).
  { unfold Np.shape2. rewrite HR. f_equal.
    destruct data as [|row rest]; [cbn in HR; lia|].
    cbn. by inversion HC. }
  rewrite Hshape. cbn [fst snd]. rewrite Hs0, Hs1. cbn [mbind option_bind].
  unfold Np.zeros2.
  replace (Z.of_nat R <? 0)%Z with false by (symmetry; apply Z.ltb_ge; lia).
  replace (N0 <? 0)%Z with false by (symmetry; apply Z.ltb_ge; lia).
  replace (N1 <? 0)%Z with false by (symmetry; apply Z.ltb_ge; lia).
  cbn [orb mbind option_bind]. rewrite Nat2Z.id.
  set (n0 := Z.to_nat N0). set (n1 := Z.to_nat N1).
  match goal with
  | |- context [Py.for_each ?body (Py.range (Z.of_nat R)) ?s0] =>
      destruct (for_each_range body
                  (λ k rx, rx = ((λ row, overlap_bin row N1 <$> seq 0 n1)
                                 <$> take k data)
                                ++ replicate (R - k) (replicate n1 0))
                  R s0) as (rx & -> & ->)
  end.
  - by rewrite Nat.sub_0_r.
  - intros k rx Hk ->.
    destruct (lookup_lt_is_Some_2 data k) as [row Hrow]; [lia|].
    rewrite get_nonneg, Hrow. cbn [mbind option_bind].
    assert (Hlen : length row = C) by (eapply (Forall_lookup_1 _ _ _ _ HC); eassumption).
    rewrite resizer_closed by lia. cbn [mbind option_bind].
    unfold Np.set_row. rewrite get_nonneg.
    rewrite lookup_app_r by (rewrite length_fmap, length_take; lia).
    rewrite lookup_replicate_2 by (rewrite length_fmap, length_take; lia).
    cbn [mbind option_bind].
    rewrite length_fmap, length_seq, length_replicate.
    rewrite decide_True by done. rewrite Nat2Z.id.
    eexists. split; [reflexivity|].
    rewrite insert_app_r_alt by (rewrite length_fmap, length_take; lia).
    rewrite length_fmap, length_take.
    replace (k - k `min` length data)%nat with 0%nat by lia.
    replace (R - k)%nat with (S (R - S k)) by lia. cbn [replicate insert list_insert].
    by rewrite (take_S_r _ _ _ Hrow), fmap_app, <- app_assoc.
  - cbn [mbind option_bind].
    rewrite Nat.sub_diag, app_nil_r, firstn_all2 by lia.
    replace (Py.range N1) with (Py.range (Z.of_nat n1))
      by (subst n1; by rewrite Z2Nat.id by lia).
    match goal with
    | |- Py.for_each ?body _ ?s0 = _ =>
        destruct (for_each_range body
                    (λ k rs,
                       rs = (λ a, ((λ xx, overlap_bin
                                            ((λ row, overlap_bin row N1 xx) <$> data)
                                            N0 a) <$> seq 0 k)
                                  ++ replicate (n1 - k) 0)
                            <$> seq 0 n0)
                    n1 s0) as (rs & -> & ->)
    end.
    + rewrite Nat.sub_0_r.
      pose proof (fmap_const_replicate (seq 0 n0) (replicate n1 (Q2Qc 0))) as E.
      rewrite length_seq in E. symmetry. exact E.
    + intros k rs Hk ->.
      rewrite (get_col_fmap_seq (λ row, overlap_bin row N1) data n1 k Hk).
      cbn [mbind option_bind].
      rewrite resizer_closed by (rewrite ?length_fmap; lia).
      cbn [mbind option_bind]. unfold Np.set_col.
      rewrite !length_fmap, !length_seq. fold n0.
      rewrite decide_True by done. rewrite Nat2Z.id.
      eexists. split; [reflexivity|].
      rewrite zip_with_fmap_l, zip_with_fmap_r, zip_with_diag.
      apply list_fmap_ext. intros _ a _. cbv beta.
      rewrite insert_app_r_alt by (rewrite length_fmap, length_seq; lia).
      rewrite length_fmap, length_seq, Nat.sub_diag.
      replace (n1 - k)%nat with (S (n1 - S k)) by lia. cbn [replicate insert list_insert].
      by rewrite seq_S, fmap_app, <- app_assoc.
    + f_equal. apply list_fmap_ext. intros _ a _. cbv beta.
      by rewrite Nat.sub_diag, app_nil_r.
Qed.

Lemma resizer2D_total :
  ∃ res, resizer2D data (s0, s1) = Some res ∧
         length res = Z.to_nat N0 ∧
         Forall (λ r : list Qc, length r = Z.to_nat N1) res ∧
         Np.sum2 res
         = Np.sum2 data * (z2q N0 * z2q N1)
           / (z2q (Z.of_nat R) * z2q (Z.of_nat C)).
Proof.
  rewrite resizer2D_closed. eexists. split; [reflexivity|].
  split; [by rewrite length_fmap, length_seq|]. split.
  - apply Forall_fmap, Forall_forall. intros a _. cbn.
    by rewrite length_fmap, length_seq.
  - assert (HRz : z2q (Z.of_nat R) ≠ 0) by (apply z2q_neq0; lia).
    assert (HCz : z2q (Z.of_nat C) ≠ 0) by (apply z2q_neq0; lia).
    unfold Np.sum2. rewrite <- list_fmap_compose.
    rewrite (list_fmap_ext _
               (λ a, Np.sum ((λ xx, overlap_bin
                                      ((λ row, overlap_bin row N1 xx) <$> data) N0 a)
                             <$> seq 0 (Z.to_nat N1))) _) by done.
    rewrite sum_fmap_swap.
    rewrite (list_fmap_ext _
               (λ xx, Np.sum ((λ row, overlap_bin row N1 xx) <$> data)
                      * (z2q N0 / z2q (Z.of_nat R))) (seq 0 (Z.to_nat N1))).
    2:{ intros _ xx _.
        rewrite (sum_overlap_bins ((λ row, overlap_bin row N1 xx) <$> data) N0)
          by (rewrite ?length_fmap; lia).
        rewrite length_fmap, HR. by field. }
    rewrite sum_fmap_scale, <- sum_fmap_swap.
    rewrite (Forall_fmap_ext_1
               (λ row, Np.sum ((λ xx, overlap_bin row N1 xx) <$> seq 0 (Z.to_nat N1)))
               (λ row, Np.sum row * (z2q N1 / z2q (Z.of_nat C))) data).
    2:{ eapply Forall_impl; [exact HC|]. intros row Hrow. cbv beta in *.
        etransitivity; [apply (sum_overlap_bins row N1); lia|].
        rewrite Hrow. by field. }
    rewrite sum_fmap_scale. by field.
Qed.

End resizer2D_sum.

(** ** [data4Dto2D]: where a pixel goes *)

Lemma concat_lookup_uniform {A} (ls : list (list A)) (n i j : nat) :
  Forall (λ l, length l = n) ls → (j < n)%nat →
  concat ls !! (i * n + j)%nat = ls !! i ≫= (.!! j).
Proof.
  intros Hls Hj. revert i. induction Hls as [|l ls Hl _ IH]; intros i; [done|].
  cbn [concat]. destruct i as [|i]; cbn [lookup list_lookup mbind option_bind].
  - cbn [Nat.mul Nat.add]. by rewrite lookup_app_l by lia.
  - rewrite lookup_app_r by nia. rewrite Hl.
    replace (S i * n + j - n)%nat with (i * n + j)%nat by lia. apply IH.
Qed.

Lemma length_concat_uniform {A} (ls : list (list A)) (n : nat) :
  Forall (λ l, length l = n) ls → length (concat ls) = (length ls * n)%nat.
Proof.
  induction 1 as [|l ls Hl _ IH]; cbn; [done|]. rewrite length_app, IH, Hl. lia.
Qed.

Lemma mapM_range {A} (f : Z → option A) (n : nat) :
  (∀ i, (i < n)%nat → is_Some (f (Z.of_nat i))) →
  ∃ l, mapM f (Py.range (Z.of_nat n)) = Some l ∧ length l = n ∧
       ∀ i, (i < n)%nat → Some <$> l !! i = Some (f (Z.of_nat i)).
Proof.
  intros Hf.
  destruct (mapM_is_Some_2 f (Py.range (Z.of_nat n))) as [l Hl].
  { apply Forall_forall. intros z Hz. unfold Py.range in Hz. rewrite Nat2Z.id in Hz.
    apply list_elem_of_fmap in Hz as (i & -> & Hi). apply elem_of_seq in Hi.
    apply Hf. lia. }
  exists l. split; [done|]. apply mapM_Some_1 in Hl.
  pose proof (Forall2_length _ _ _ Hl) as Hlen.
  unfold Py.range in Hl, Hlen. rewrite Nat2Z.id in Hl, Hlen.
  rewrite length_fmap, length_seq in Hlen. split; [done|].
  intros i Hi.
  destruct (Forall2_lookup_l _ _ _ i (Z.of_nat i) Hl) as (y & Hy & Hfy).
  { by rewrite list_lookup_fmap, lookup_seq_lt. }
  rewrite Hy. cbn. by rewrite Hfy.
Qed.

Section data4Dto2D_facts.
Variables d1 d2 d3 : nat.

Lemma get_slice_lookup (data4D : data4d) (ii jj : nat) :
  Forall (λ pl : list image, length pl = d1 ∧ Forall (Np4.cell_rect d2 d3) pl) data4D →
  (ii < d2)%nat → (jj < d3)%nat →
  ∃ sl, Np4.get_slice (Z.of_nat ii) (Z.of_nat jj) data4D = Some sl ∧
        length sl = length data4D ∧
        Forall (λ r : list Qc, length r = d1) sl ∧
        ∀ i0 i1, at2 sl i0 i1 = at4 data4D i0 i1 ii jj.
Proof.
  intros Hrect Hii Hjj. unfold Np4.get_slice.
  unfold at4, at2.
  induction Hrect as [|pl data [Hpl1 Hpl] _ (sl & Hsl & Hlen & Hrows & Hlook)].
  - exists []. split; [done|]. split; [done|]. split; [constructor|]. by intros [|?] ?.
  - assert (∃ vs,
      mapM (λ c : image, row ← Py.get c (Z.of_nat ii); Py.get row (Z.of_nat jj)) pl
        = Some vs ∧ length vs = length pl ∧
      ∀ i1, vs !! i1 = c ← pl !! i1; at2 c ii jj)
      as (vs & Hvs & Hvl & Hvlook).
    { clear -Hpl Hii Hjj. unfold at2. induction Hpl as [|c pl [Hc1 Hc2] _ (vs & Hvs & Hvl & Hvlook)].
      - exists []. split; [done|]. split; [done|]. by intros [|?].
      - destruct (lookup_lt_is_Some_2 c ii) as [row Hrow]; [lia|].
        pose proof (Forall_lookup_1 _ _ _ _ Hc2 Hrow) as Hrl. cbn in Hrl.
        destruct (lookup_lt_is_Some_2 row jj) as [v Hv]; [lia|].
        exists (v :: vs). cbn. rewrite get_nonneg, Hrow. cbn. rewrite get_nonneg, Hv.
        cbn. cbn in Hvs. rewrite Hvs. cbn. split; [done|]. split; [by rewrite Hvl|].
        intros [|i1]; cbn; [by rewrite Hrow|apply Hvlook]. }
    exists (vs :: sl). cbn. rewrite Hvs. cbn. cbn in Hsl. rewrite Hsl. cbn.
    split; [done|]. split; [by rewrite Hlen|]. split.
    + constructor; [lia|done].
    + intros [|i0] i1; cbn; [apply Hvlook|apply Hlook].
Qed.

Lemma data4Dto2D_rows (data4D : data4d) (d0' d1' : nat) :
  Forall (λ pl : list image, length pl = d1 ∧ Forall (Np4.cell_rect d2 d3) pl) data4D →
  Np4.shape4 data4D = (d0', d1', d2, d3) →
  ∃ data2D,
    data4Dto2D data4D = Some data2D ∧
    length data2D = (d2 * d3)%nat ∧
    ∀ i2 i3, (i2 < d2)%nat → (i3 < d3)%nat →
      ∃ sl, Np4.get_slice (Z.of_nat i2) (Z.of_nat i3) data4D = Some sl ∧
            data2D !! (i2 * d3 + i3)%nat = Some (concat sl).
Proof.
  intros Hrect Hshape. unfold data4Dto2D, transpose_2301. rewrite Hshape.
  destruct (mapM_range
              (λ ii, mapM (λ jj, Np4.get_slice ii jj data4D) (Py.range (Z.of_nat d3)))
              d2) as (T & HT & HTlen & HTlook).
  { intros i2 Hi2.
    destruct (mapM_range (λ jj, Np4.get_slice (Z.of_nat i2) jj data4D) d3)
      as (t & -> & _); [|eauto].
    intros i3 Hi3.
    destruct (get_slice_lookup data4D i2 i3 Hrect Hi2 Hi3) as (sl & -> & _). eauto. }
  rewrite HT. cbn [mbind option_bind]. eexists. split; [reflexivity|].
  assert (Hrow : ∀ i2 t, T !! i2 = Some t →
            length t = d3 ∧
            ∀ i3, (i3 < d3)%nat →
              ∃ sl, Np4.get_slice (Z.of_nat i2) (Z.of_nat i3) data4D = Some sl ∧
                    t !! i3 = Some sl).
  { intros i2 t Ht. pose proof (lookup_lt_Some _ _ _ Ht) as Hi2.
    rewrite HTlen in Hi2. specialize (HTlook i2 Hi2). rewrite Ht in HTlook.
    cbn in HTlook. injection HTlook as HTlook. symmetry in HTlook.
    apply mapM_Some_1 in HTlook.
    pose proof (Forall2_length _ _ _ HTlook) as Hl.
    unfold Py.range in Hl, HTlook. rewrite Nat2Z.id in Hl, HTlook.
    rewrite length_fmap, length_seq in Hl. split; [done|].
    intros i3 Hi3.
    destruct (Forall2_lookup_l _ _ _ i3 (Z.of_nat i3) HTlook) as (sl & Hsl & Hg).
    { by rewrite list_lookup_fmap, lookup_seq_lt. }
    eauto. }
  assert (Hu : Forall (λ l : list (list Qc), length l = d3)
                 ((λ t : list image, (λ c : image, concat c) <$> t) <$> T)).
  { apply Forall_fmap, Forall_lookup_2. intros i2 t Ht. cbn.
    rewrite length_fmap. by apply Hrow in Ht as [? _]. }
  split.
  - by rewrite (length_concat_uniform _ d3 Hu), length_fmap, HTlen.
  - intros i2 i3 Hi2 Hi3.
    destruct (lookup_lt_is_Some_2 T i2) as [t Ht]; [lia|].
    destruct (Hrow i2 t Ht) as [_ Hsl]. destruct (Hsl i3 Hi3) as (sl & Hg & Hts).
    exists sl. split; [done|].
    rewrite (concat_lookup_uniform _ d3 i2 i3 Hu Hi3).
    rewrite list_lookup_fmap, Ht. cbn. by rewrite list_lookup_fmap, Hts.
Qed.

Lemma data4Dto2D_lookup (data4D : data4d) (d0' d1' : nat) :
  Forall (λ pl : list image, length pl = d1 ∧ Forall (Np4.cell_rect d2 d3) pl) data4D →
  Np4.shape4 data4D = (d0', d1', d2, d3) →
  ∃ data2D,
    data4Dto2D data4D = Some data2D ∧
    length data2D = (d2 * d3)%nat ∧
    Forall (λ r : list Qc, length r = (length data4D * d1)%nat) data2D ∧
    ∀ i0 i1 i2 i3, (i1 < d1)%nat → (i2 < d2)%nat → (i3 < d3)%nat →
      at2 data2D (i2 * d3 + i3) (i0 * d1 + i1) = at4 data4D i0 i1 i2 i3.
Proof.
  intros Hrect Hshape.
  destruct (data4Dto2D_rows data4D d0' d1' Hrect Hshape) as (data2D & -> & Hlen & Hrows).
  exists data2D. split; [done|]. split; [done|]. split.
  - apply Forall_lookup_2. intros r row Hr.
    pose proof (lookup_lt_Some _ _ _ Hr) as Hlt. rewrite Hlen in Hlt.
    assert (Hd3 : (0 < d3)%nat) by nia.
    pose proof (Nat.div_mod_eq r d3) as Hdm.
    pose proof (Nat.mod_upper_bound r d3 ltac:(lia)) as Hmod.
    assert (Hi2 : (r / d3 < d2)%nat) by (apply Nat.Div0.div_lt_upper_bound; lia).
    destruct (Hrows (r / d3)%nat (r mod d3)%nat Hi2 Hmod) as (sl & Hg & Hsl).
    replace (r / d3 * d3 + r mod d3)%nat with r in Hsl by lia.
    rewrite Hr in Hsl. injection Hsl as ->.
    destruct (get_slice_lookup data4D _ _ Hrect Hi2 Hmod) as (sl' & Hg' & Hl & Hw & _).
    rewrite Hg in Hg'. injection Hg' as <-.
    by rewrite (length_concat_uniform _ d1 Hw), Hl.
  - intros i0 i1 i2 i3 Hi1 Hi2 Hi3.
    destruct (Hrows i2 i3 Hi2 Hi3) as (sl & Hg & Hsl).
    destruct (get_slice_lookup data4D _ _ Hrect Hi2 Hi3) as (sl' & Hg' & Hl & Hw & Hat).
    rewrite Hg in Hg'. injection Hg' as <-.
    unfold at2 at 1. rewrite Hsl. cbn [mbind option_bind].
    rewrite (concat_lookup_uniform _ d1 i0 i1 Hw Hi1). apply Hat.
Qed.

End data4Dto2D_facts.

(** ** The disk locator and the extractors: failures and deformations *)

Lemma for_each_inv {S I} (body : S → I → option S) (P : S → Prop) (idx : list I) :
  (∀ s i s', P s → body s i = Some s' → P s') →
  ∀ s s', P s → Py.for_each body idx s = Some s' → P s'.
Proof.
  intros Hstep. induction idx as [|i idx IH]; intros s s' Hs; cbn.
  - by intros [= <-].
  - destruct (body s i) as [s1|] eqn:E; cbn; [|done]. apply IH. by eapply Hstep.
Qed.

Lemma select_rows_none {A} (mask : list bool) (a l : list A) :
  Forall (λ b, b = false) mask → select_rows mask a = Some l → l = [].
Proof.
  unfold select_rows. intros Hmask. destruct (decide _) as [Hlen|]; [|done].
  intros [= <-]. revert a Hlen.
  induction Hmask as [|b mask -> _ IH]; intros a Hlen; [done|].
  destruct a as [|x a]; [done|]. cbn. apply IH. cbn in Hlen. lia.
Qed.

Lemma matmul2_assoc (a b c : mat2) :
  matmul2 (matmul2 a b) c = matmul2 a (matmul2 b c).
Proof. unfold matmul2. cbn. f_equal; ring. Qed.

Lemma matmul2_eye_r (a : mat2) : matmul2 a eye2 = a.
Proof. destruct a. unfold matmul2, eye2. cbn. f_equal; ring. Qed.

Section nbed_edges.
Context `{NbedLib}.

Lemma fit_nbed_disks_fitted_length corr_image disk_size positions diff_spots r :
  fit_nbed_disks corr_image disk_size positions diff_spots = Some r →
  length r.1.1 = length positions ∧ length positions = length diff_spots.
Proof.
  unfold fit_nbed_disks. cbv zeta.
  match goal with
  | |- context [Py.for_each ?body ?idx ?s0] =>
      destruct (Py.for_each body idx s0) as [fl|] eqn:Hloop; [|done];
      pose proof (for_each_inv body (λ fl, length fl = length positions) idx) as Hinv
  end.
  assert (Hfl : length fl = length positions).
  { refine (Hinv _ _ _ _ Hloop); cbv beta.
    - intros s i s' Hs Hb. destruct (Py.get positions i); [|done].
      cbn in Hb. injection Hb as <-. by rewrite length_insert.
    - apply length_fmap. }
  cbn [mbind option_bind]. unfold select_rows at 1.
  destruct (decide _) as [Hlen|]; [|done]. rewrite !length_fmap in Hlen.
  cbn [mbind option_bind]. destruct (Py.get _ 0); [|done]. cbn [mbind option_bind].
  intros [= <-]. cbn. lia.
Qed.

Lemma fit_nbed_disks_no_origin corr_image disk_size positions diff_spots :
  Forall (λ s, s ≠ (0, 0)) diff_spots →
  fit_nbed_disks corr_image disk_size positions diff_spots = None.
Proof.
  intros Hno. unfold fit_nbed_disks. cbv zeta.
  match goal with
  | |- context [Py.for_each ?body ?idx ?s0] =>
      destruct (Py.for_each body idx s0) as [fl|]; [|done]
  end.
  cbn [mbind option_bind].
  destruct (select_rows _ _) as [center|] eqn:Hsel; [|done].
  apply select_rows_none in Hsel as ->; [done|].
  apply Forall_fmap. eapply Forall_impl; [exact Hno|]. intros s Hs. cbn.
  destruct (is_origin s) eqn:E; [|done]. by apply is_origin_true in E.
Qed.

Lemma fit_nbed_disks_mismatch corr_image disk_size positions diff_spots :
  length positions ≠ length diff_spots →
  fit_nbed_disks corr_image disk_size positions diff_spots = None.
Proof.
  intros Hne.
  destruct (fit_nbed_disks corr_image disk_size positions diff_spots) as [r|] eqn:E;
    [|done].
  apply fit_nbed_disks_fitted_length in E as [_ ?]. done.
Qed.

Variables prep prep_disk : image → image.

Lemma pipeline_no_origin stack center_disk disk_list pos_list reference_axes :
  stack ≠ [] →
  Forall (λ s, s ≠ (0, 0)) pos_list →
  strain_pipeline prep prep_disk stack center_disk disk_list pos_list reference_axes
  = None.
Proof.
  intros Hne Hno. unfold strain_pipeline.
  destruct (pipeline_reference _ _ _ _ _ _ _) as [R|]; [|done].
  cbn [mbind option_bind]. destruct (inv2 R) as [Rinv|]; [|done].
  cbn [mbind option_bind]. destruct stack as [|pattern stack]; [done|].
  cbn. unfold pipeline_axes. by rewrite fit_nbed_disks_no_origin.
Qed.

Lemma pipeline_lengths stack center_disk disk_list pos_list reference_axes
    e_xx e_xy e_th e_yy :
  strain_pipeline prep prep_disk stack center_disk disk_list pos_list reference_axes
  = Some (e_xx, e_xy, e_th, e_yy) →
  length e_xx = length stack ∧ length e_xy = length stack ∧
  length e_th = length stack ∧ length e_yy = length stack.
Proof.
  unfold strain_pipeline.
  destruct (pipeline_reference _ _ _ _ _ _ _) as [R|]; [|done].
  cbn [mbind option_bind]. destruct (inv2 R) as [Rinv|]; [|done].
  cbn [mbind option_bind]. destruct (mapM _ stack) as [e|] eqn:He; [|done].
  cbn [mbind option_bind]. intros [= <- <- <- <-].
  apply length_mapM in He. by rewrite !length_fmap.
Qed.

Lemma pipeline_deformation stack center_disk disk_list pos_list c R D ii pattern :
  length disk_list = length pos_list →
  pos_list !! c = Some (0, 0) →
  det2 R ≠ 0 →
  stack !! ii = Some pattern →
  pipeline_axes prep prep_disk center_disk disk_list pos_list pattern
    = Some (matmul2 D R) →
  ∃ e_xx e_xy e_th e_yy,
    strain_pipeline prep prep_disk stack center_disk disk_list pos_list (Some R)
      = Some (e_xx, e_xy, e_th, e_yy) ∧
    e_xx !! ii = Some (1 - m00 D) ∧
    e_xy !! ii = Some (- (m01 D + m10 D)) ∧
    e_th !! ii = Some (m01 D - m10 D) ∧
    e_yy !! ii = Some (1 - m11 D).
Proof.
  intros Hlen Hc Hdet Hp HA. destruct (inv2_Some R Hdet) as [Rinv Hinv].
  destruct (pipeline_components prep prep_disk stack center_disk disk_list pos_list
              (Some R) c R Rinv Hlen Hc eq_refl Hinv)
    as (e_xx & e_xy & e_th & e_yy & Hrun & Hall).
  exists e_xx, e_xy, e_th, e_yy. split; [done|].
  destruct (Hall ii pattern Hp) as (axes & Haxes & Hxx & Hxy & Hth & Hyy).
  rewrite HA in Haxes. injection Haxes as <-.
  rewrite matmul2_assoc, (inv2_right _ _ Hinv), matmul2_eye_r in Hxx, Hxy, Hth, Hyy.
  rewrite Hxx, Hxy, Hth, Hyy. unfold sub2, eye2. cbn.
  repeat split; f_equal; ring.
Qed.

End nbed_edges.

(** ** [ROI_from_image]: the median splits the pixels *)

Lemma insert_sorted_perm (x : Qc) (l : list Qc) : Np.insert_sorted x l ≡ₚ x :: l.
Proof.
  induction l as [|y l IH]; cbn; [done|].
  destruct (x ?= y); [done|done|]. rewrite IH. apply Permutation_swap.
Qed.

Lemma sort_perm (l : list Qc) : Np.sort l ≡ₚ l.
Proof.
  unfold Np.sort. induction l as [|x l IH]; cbn; [done|].
  by rewrite insert_sorted_perm, IH.
Qed.

Lemma Qc_compare_le (x y : Qc) : (x ?= y) ≠ Gt → x <= y.
Proof. intros Hc. by apply Qcle_alt. Qed.

Lemma Qc_compare_gt_le (x y : Qc) : (x ?= y) = Gt → y <= x.
Proof. intros Hc. apply Qcgt_alt in Hc. by apply Qclt_le_weak. Qed.

Lemma insert_sorted_sorted (x : Qc) (l : list Qc) :
  StronglySorted Qcle l → StronglySorted Qcle (Np.insert_sorted x l).
Proof.
  induction 1 as [|y l Hl IH Hy]; cbn.
  - by repeat constructor.
  - destruct (x ?= y) eqn:E.
    + constructor; [by constructor|]. constructor.
      * apply Qc_compare_le. by rewrite E.
      * eapply Forall_impl; [exact Hy|]. intros z Hz. cbn.
        eapply Qcle_trans; [|exact Hz]. apply Qc_compare_le. by rewrite E.
    + constructor; [by constructor|]. constructor.
      * apply Qc_compare_le. by rewrite E.
      * eapply Forall_impl; [exact Hy|]. intros z Hz. cbn.
        eapply Qcle_trans; [|exact Hz]. apply Qc_compare_le. by rewrite E.
    + constructor; [done|].
      rewrite insert_sorted_perm. constructor; [by apply Qc_compare_gt_le|done].
Qed.

Lemma sort_sorted (l : list Qc) : StronglySorted Qcle (Np.sort l).
Proof.
  unfold Np.sort. induction l as [|x l IH]; cbn; [constructor|].
  by apply insert_sorted_sorted.
Qed.

Lemma sorted_lookup_le (s : list Qc) (i j : nat) (x y : Qc) :
  StronglySorted Qcle s → (i ≤ j)%nat → s !! i = Some x → s !! j = Some y → x <= y.
Proof.
  intros Hs. revert i j. induction Hs as [|z s Hs IH Hz]; intros i j Hij Hi Hj; [done|].
  destruct i as [|i], j as [|j]; cbn in *.
  - injection Hi as <-. injection Hj as <-. apply Qcle_refl.
  - injection Hi as <-. eapply (proj1 (Forall_forall _ _) Hz).
    apply list_elem_of_lookup. eauto.
  - lia.
  - eapply IH; [|done..]. lia.
Qed.

Lemma filter_none (f : Qc → bool) (l : list Qc) :
  Forall (λ x, f x = false) l → filter (λ x, f x = true) l = [].
Proof.
  induction 1 as [|x l Hx _ IH]; [done|].
  rewrite filter_cons_False by (rewrite Hx; done). exact IH.
Qed.

(** In a list whose elements up to position [k] fail the test, at most the
    later ones pass it; likewise when those from position [k] on fail. *)
Lemma filter_after (f : Qc → bool) (s : list Qc) (k : nat) :
  (∀ i x, (i ≤ k)%nat → s !! i = Some x → f x = false) →
  (length (filter (λ x, f x = true) s) ≤ length s - S k)%nat.
Proof.
  intros Hrej. rewrite <- (take_drop (S k) s) at 1.
  rewrite filter_app, length_app, filter_none.
  - cbn. etransitivity; [apply length_filter|]. by rewrite length_drop.
  - apply Forall_lookup_2. intros i x Hi.
    apply lookup_take_Some in Hi as [Hi Hlt]. apply (Hrej i); [lia|done].
Qed.

Lemma filter_before (f : Qc → bool) (s : list Qc) (k : nat) :
  (∀ i x, (k ≤ i)%nat → s !! i = Some x → f x = false) →
  (length (filter (λ x, f x = true) s) ≤ k)%nat.
Proof.
  intros Hrej. rewrite <- (take_drop k s) at 1.
  rewrite filter_app, length_app, (filter_none f (drop k s)).
  - cbn. etransitivity; [apply Nat.add_le_mono_r, length_filter|].
    rewrite length_take. lia.
  - apply Forall_lookup_2. intros i x Hi. rewrite lookup_drop in Hi.
    apply (Hrej (k + i)%nat); [lia|done].
Qed.

Lemma half_cases (n : nat) :
  (Nat.even n = true ∧ n = (2 * (n / 2))%nat) ∨
  (Nat.even n = false ∧ n = (2 * (n / 2) + 1)%nat).
Proof.
  pose proof (Nat.div_mod_eq n 2) as Hdm.
  pose proof (Nat.mod_upper_bound n 2 ltac:(lia)) as Hmod.
  destruct (Nat.even n) eqn:E.
  - left. split; [done|]. apply Nat.even_spec in E as [m Hm]. lia.
  - right. split; [done|].
    assert (Ho : Nat.odd n = true) by (by rewrite <- Nat.negb_even, E).
    apply Nat.odd_spec in Ho as [m Hm]. lia.
Qed.

Lemma Qc_half_between (lo hi : Qc) :
  lo <= hi → lo <= (lo + hi) / z2q 2 ∧ (lo + hi) / z2q 2 <= hi.
Proof.
  intros Hle.
  assert (H2 : z2q 2 ≠ 0) by (by apply z2q_neq0).
  assert (E2 : z2q 2 = 1 + 1) by (apply Qc_is_canon; reflexivity).
  assert (Hh : 0 <= / z2q 2).
  { apply Qcle_alt. intros E. vm_compute in E. discriminate. }
  apply Qcle_minus_iff in Hle.
  pose proof (Qcmult_le_compat_r _ _ _ Hle Hh) as Hm.
  split; apply Qcle_minus_iff.
  - replace ((lo + hi) / z2q 2 + - lo) with ((hi + - lo) * / z2q 2)
      by (rewrite E2 in *; by field).
    by replace (0 * / z2q 2) with (Q2Qc 0) in Hm by ring.
  - replace (hi + - ((lo + hi) / z2q 2)) with ((hi + - lo) * / z2q 2)
      by (rewrite E2 in *; by field).
    by replace (0 * / z2q 2) with (Q2Qc 0) in Hm by ring.
Qed.


Lemma is_above_false (t v : Qc) : v <= t → is_above t v = false.
Proof.
  intros Hle. unfold is_above. destruct (v ?= t) eqn:E; [done|done|].
  by apply Qcle_alt in Hle.
Qed.

Lemma is_below_false (t v : Qc) : t <= v → is_below t v = false.
Proof.
  intros Hle. unfold is_below. destruct (v ?= t) eqn:E; [done| |done].
  apply Qclt_alt in E. by apply Qcle_not_lt in Hle.
Qed.

Lemma median_split (img : image) (md : Qc) :
  Np.median img = Some md →
  (2 * length (filter (λ v, is_above md v = true) (concat img))
   ≤ length (concat img))%nat ∧
  (2 * length (filter (λ v, is_below md v = true) (concat img))
   ≤ length (concat img))%nat.
Proof.
  unfold Np.median. cbv zeta.
  set (l := concat img). set (s := Np.sort l).
  assert (Hperm : s ≡ₚ l) by apply sort_perm.
  pose proof (sort_sorted l) as Hsorted. fold s in Hsorted.
  assert (Hn : length l = length s) by (by rewrite Hperm).
  assert (Ha : ∀ f : Qc → bool,
            length (filter (λ v, f v = true) l) = length (filter (λ v, f v = true) s)).
  { intros f. apply Permutation_length. by rewrite Hperm. }
  rewrite !Ha, Hn. clear Ha Hn Hperm.
  destruct (half_cases (length s)) as [[-> Hlen]|[-> Hlen]].
  - destruct (s !! (length s / 2)%nat) as [hi|] eqn:Hhi; [|done].
    cbn [mbind option_bind].
    destruct (s !! (length s / 2 - 1)%nat) as [lo|] eqn:Hlo; [|done].
    cbn [mbind option_bind]. intros [= <-].
    pose proof (lookup_lt_Some _ _ _ Hhi) as Hlt.
    assert (Hlohi : lo <= hi)
      by (eapply (sorted_lookup_le s _ _ lo hi Hsorted); [|done..]; lia).
    destruct (Qc_half_between lo hi Hlohi) as [Hl Hh].
    split.
    + pose proof (filter_after (is_above ((lo + hi) / z2q 2)) s (length s / 2 - 1)) as Hf.
      etransitivity; [apply Nat.mul_le_mono_l, Hf|lia].
      intros i x Hi Hx. apply is_above_false.
      eapply Qcle_trans; [|exact Hl].
      eapply (sorted_lookup_le s i _ x lo Hsorted); [|done..]. lia.
    + pose proof (filter_before (is_below ((lo + hi) / z2q 2)) s (length s / 2)) as Hf.
      etransitivity; [apply Nat.mul_le_mono_l, Hf|lia].
      intros i x Hi Hx. apply is_below_false.
      eapply Qcle_trans; [exact Hh|].
      eapply (sorted_lookup_le s _ i hi x Hsorted); [|done..]. lia.
  - intros Hmd. split.
    + pose proof (filter_after (is_above md) s (length s / 2)) as Hf.
      etransitivity; [apply Nat.mul_le_mono_l, Hf|lia].
      intros i x Hi Hx. apply is_above_false.
      eapply (sorted_lookup_le s i _ x md Hsorted); [|done..]. lia.
    + pose proof (filter_before (is_below md) s (length s / 2)) as Hf.
      etransitivity; [apply Nat.mul_le_mono_l, Hf|lia].
      intros i x Hi Hx. apply is_below_false.
      eapply (sorted_lookup_le s _ i md x Hsorted); [|done..]. lia.
Qed.

Lemma ROI_from_image_over (img : image) (med_val : Qc) (showfig : bool) :
  ROI_from_image img med_val "over" showfig
  = (λ row : list Qc,
       (λ v, match Np.median img with
             | Some md => is_above (med_val * md) v
             | None => false
             end) <$> row) <$> img.
Proof.
  unfold ROI_from_image. cbn [String.eqb Ascii.eqb Bool.eqb].
  rewrite <- list_fmap_compose. apply list_fmap_ext. intros _ row _. cbn.
  rewrite <- list_fmap_compose. apply list_fmap_ext. intros _ v _. cbn.
  unfold is_above, Qc_eq_bool.
  destruct (Np.median img) as [md|].
  - destruct (v ?= med_val * md).
    + by destruct (Qc_eq_dec 0 0).
    + by destruct (Qc_eq_dec 0 0).
    + destruct (Qc_eq_dec 1 0) as [E|]; [|done]. by apply Q_apart_0_1 in E.
  - by destruct (Qc_eq_dec 0 0).
Qed.

Lemma ROI_from_image_other (img : image) (med_val : Qc) (style : string)
    (showfig : bool) :
  style ≠ "over"%string →
  ROI_from_image img med_val style showfig
  = (λ row : list Qc,
       (λ v, match Np.median img with
             | Some md => is_below (med_val * md) v
             | None => false
             end) <$> row) <$> img.
Proof.
  intros Hstyle. unfold ROI_from_image.
  replace (style =? "over")%string with false
    by (symmetry; by apply String.eqb_neq).
  rewrite <- list_fmap_compose. apply list_fmap_ext. intros _ row _. cbn.
  rewrite <- list_fmap_compose. apply list_fmap_ext. intros _ v _. cbn.
  unfold is_below, Qc_eq_bool.
  destruct (Np.median img) as [md|].
  - destruct (v ?= med_val * md).
    + by destruct (Qc_eq_dec 0 0).
    + destruct (Qc_eq_dec 1 0) as [E|]; [|done]. by apply Q_apart_0_1 in E.
    + by destruct (Qc_eq_dec 0 0).
  - by destruct (Qc_eq_dec 0 0).
Qed.

Lemma mask_count_fmap (f : Qc → bool) (img : image) :
  Mask.count ((λ row : list Qc, f <$> row) <$> img)
  = length (filter (λ v, f v = true) (concat img)).
Proof.
  unfold Mask.count. induction img as [|row img IH]; [done|].
  cbn [fmap list_fmap concat]. rewrite !filter_app, !length_app.
  fold (fmap (M:=list) (λ row : list Qc, f <$> row) img). rewrite IH. f_equal.
  clear. induction row as [|v row IH]; [done|]. cbn [fmap list_fmap].
  fold (fmap (M:=list) f row).
  destruct (f v) eqn:E.
  - rewrite !filter_cons_True by done. cbn. by rewrite IH.
  - rewrite !filter_cons_False by (by rewrite ?E). exact IH.
Qed.

(** ** [cleanEELS_wavelet] and [cleanEELS_3D] *)

Section wavelet_facts.
Context `{PywtLib}.

(** The loop over the detail levels, started behind the levels [pre] that
    are already final: reading and writing the one list [coeffs] gives what
    mapping over the remaining levels gives. *)
Lemma wavelet_loop (rest pre : list (list Qc)) :
  Py.for_each
    (λ (coeffs : list (list Qc)) ii,
       c ← Py.get coeffs ii;
       top ← Np.amax c;
       Some (<[Z.to_nat ii := threshold c (z2q 1 / z2q 10 * top)]> coeffs))
    ((λ i, Z.of_nat (length pre + i)) <$> seq 0 (length rest)) (pre ++ rest)
  = rest' ← mapM (λ c, top ← Np.amax c;
                       Some (threshold c (z2q 1 / z2q 10 * top))) rest;
    Some (pre ++ rest').
Proof.
  revert pre. induction rest as [|c rest IH]; intros pre.
  - cbn. by rewrite app_nil_r.
  - cbn [length seq fmap list_fmap Py.for_each].
    rewrite Nat.add_0_r, get_nonneg, lookup_app_r, Nat.sub_diag by lia.
    cbn [lookup list_lookup mbind option_bind mapM].
    destruct (Np.amax c) as [top|]; [|done]. cbn [mbind option_bind].
    rewrite Nat2Z.id, insert_app_r_alt, Nat.sub_diag by lia.
    cbn [insert list_insert].
    rewrite (cons_middle _ pre rest), app_assoc.
    rewrite <- fmap_S_seq, <- list_fmap_compose.
    rewrite (list_fmap_ext _ (λ i, Z.of_nat (length (pre ++ [threshold c (z2q 1 / z2q 10 * top)]) + i)) (seq 0 (length rest)))
      by (intros _ i _; cbn; rewrite length_app; cbn; f_equal; lia).
    rewrite IH. destruct (mapM _ rest) as [rest'|]; [|done].
    cbn [mbind option_bind mret option_ret]. by rewrite <- app_assoc.
Qed.

Lemma cleanEELS_wavelet_levels (data : list Qc) (t : Qc) (c0 : list Qc)
    (rest : list (list Qc)) :
  wavedec data "sym4" (dwt_max_level (Z.of_nat (length data)) (dec_len "sym4"))
    = c0 :: rest →
  cleanEELS_wavelet data t
  = rest' ← mapM (λ c, top ← Np.amax c;
                       Some (threshold c (z2q 1 / z2q 10 * top))) rest;
    Some (waverec (c0 :: rest') "sym4").
Proof.
  intros Hdec. unfold cleanEELS_wavelet. cbv zeta. rewrite Hdec.
  unfold Py2.range, Py.range.
  replace (Z.to_nat (Z.of_nat (length (c0 :: rest)) - 1)) with (length rest)
    by (cbn [length]; lia).
  rewrite <- list_fmap_compose.
  rewrite (list_fmap_ext _ (λ i, Z.of_nat (length [c0] + i)) (seq 0 (length rest)))
    by (intros _ i _; cbn; lia).
  pose proof (wavelet_loop rest [c0]) as Hloop. cbn [app] in Hloop.
  rewrite Hloop. by destruct (mapM _ rest).
Qed.

End wavelet_facts.

Section eels3d_facts.
Context `{PywtLib} `{SignalLib}.

Lemma cleanEELS_3D_not_positive (data3D : list image) (method : string) (t : Qc) :
  method = "wavelet"%string ∨ method = "median"%string → t <= 0 →
  cleanEELS_3D data3D method t = Some data3D.
Proof.
  intros Hm Ht. unfold cleanEELS_3D.
  destruct (Np3.shape3 data3D) as [[d0 d1] d2]. cbv zeta.
  destruct Hm as [-> | ->]; cbn [String.eqb Ascii.eqb Bool.eqb];
    (destruct (t ?= 0) eqn:E; try done; by apply Qcle_alt in Ht).
Qed.

Lemma cleanEELS_3D_other_method (data3D : list image) (method : string) (t : Qc) :
  method ≠ "wavelet"%string → method ≠ "median"%string →
  cleanEELS_3D data3D method t
  = Some (Np3.zeros3 (Np3.shape3 data3D).1.1 (Np3.shape3 data3D).1.2
            (Np3.shape3 data3D).2).
Proof.
  intros Hw Hm. unfold cleanEELS_3D.
  destruct (Np3.shape3 data3D) as [[d0 d1] d2]. cbv zeta.
  replace (method =? "wavelet")%string with false
    by (symmetry; by apply String.eqb_neq).
  replace (method =? "median")%string with false
    by (symmetry; by apply String.eqb_neq).
  done.
Qed.

Lemma cleanEELS_3D_wavelet_any (data3D : list image) (t1 t2 : Qc) :
  0 < t1 → 0 < t2 →
  cleanEELS_3D data3D "wavelet" t1 = cleanEELS_3D data3D "wavelet" t2.
Proof.
  intros H1 H2. apply Qclt_alt in H1, H2.
  assert (G1 : (t1 ?= 0) = Gt).
  { apply Qcgt_alt. by apply Qclt_alt. }
  assert (G2 : (t2 ?= 0) = Gt).
  { apply Qcgt_alt. by apply Qclt_alt. }
  unfold cleanEELS_3D. destruct (Np3.shape3 data3D) as [[d0 d1] d2]. cbv zeta.
  cbn [String.eqb Ascii.eqb Bool.eqb]. by rewrite G1, G2.
Qed.

End eels3d_facts.

(** ** [region_intensity] *)

Lemma min2_le (x y : Qc) : Np.min2 x y <= x ∧ Np.min2 x y <= y.
Proof.
  unfold Np.min2. destruct (x ?= y) eqn:E.
  - split; [apply Qcle_refl|]. apply Qcle_alt. by rewrite E.
  - split; [apply Qcle_refl|]. apply Qcle_alt. by rewrite E.
  - split; [|apply Qcle_refl]. apply Qcgt_alt in E. by apply Qclt_le_weak.
Qed.

Lemma foldl_min2_le (l : list Qc) (a : Qc) :
  foldl Np.min2 a l <= a ∧ Forall (λ x, foldl Np.min2 a l <= x) l.
Proof.
  revert a. induction l as [|x l IH]; intros a; cbn.
  - split; [apply Qcle_refl|constructor].
  - destruct (IH (Np.min2 a x)) as [H1 H2]. destruct (min2_le a x) as [Ha Hx].
    split; [by eapply Qcle_trans|]. constructor; [by eapply Qcle_trans|done].
Qed.

Lemma amin_le (l : list Qc) (m : Qc) :
  Np.amin l = Some m → Forall (λ x, m <= x) l.
Proof.
  destruct l as [|a l]; [done|]. cbn. intros [= <-].
  destruct (foldl_min2_le l a) as [H1 H2]. by constructor.
Qed.

Lemma sum_nonneg (l : list Qc) : Forall (λ x, 0 <= x) l → 0 <= Np.sum l.
Proof.
  unfold Np.sum. induction 1 as [|x l Hx _ IH]; cbn; [apply Qcle_refl|].
  replace (Q2Qc 0) with (0 + 0) by ring. by apply Qcplus_le_compat.
Qed.

Lemma get_Some_range {A} (l : list A) (i : Z) (x : A) :
  Py.get l i = Some x →
  (- Z.of_nat (length l) ≤ i < Z.of_nat (length l))%Z.
Proof.
  unfold Py.get. destruct (Z.leb_spec 0 i) as [Hi|Hi].
  - intros Hx%lookup_lt_Some. lia.
  - destruct (Z.leb_spec 0 (Z.of_nat (length l) + i)) as [Hj|Hj]; [|done].
    intros _. lia.
Qed.

Section region_facts.
Context `{EelsFit}.

Lemma region_intensity_nonneg xdata ydata xrange peak_range showdata s :
  region_intensity xdata ydata xrange peak_range showdata = Some s → 0 <= s.
Proof.
  unfold region_intensity.
  destruct (powerlaw_fit _ _ _) as [[[fitted ?] ?]|]; cbn [mbind option_bind]; [|done].
  destruct (Np1.sub _ _) as [sub|]; cbn [mbind option_bind]; [|done].
  destruct (energy_index xdata peak_range.1) as [start|];
    cbn [mbind option_bind]; [|done].
  destruct (energy_index xdata peak_range.2) as [stop|];
    cbn [mbind option_bind]; [|done].
  destruct (Np.amin _) as [data_floor|] eqn:Hfloor; cbn [mbind option_bind]; [|done].
  destruct (Py.get sub start); cbn [mbind option_bind]; [|done].
  destruct (Py.get sub stop); cbn [mbind option_bind]; [|done].
  intros [= <-]. apply sum_nonneg, Forall_fmap.
  eapply Forall_impl; [exact (amin_le _ _ Hfloor)|].
  intros v Hv. cbn. by apply Qcle_minus_iff in Hv.
Qed.

Lemma region_intensity_window xdata ydata xrange peak_range showdata s
    fitted power const :
  powerlaw_fit xdata ydata xrange = Some (fitted, power, const) →
  length fitted = length ydata →
  region_intensity xdata ydata xrange peak_range showdata = Some s →
  ∃ start stop,
    energy_index xdata peak_range.1 = Some start ∧
    energy_index xdata peak_range.2 = Some stop ∧
    (- Z.of_nat (length ydata) ≤ start < Z.of_nat (length ydata))%Z ∧
    (- Z.of_nat (length ydata) ≤ stop < Z.of_nat (length ydata))%Z ∧
    (Py3.clip (Z.of_nat (length ydata)) start
     < Py3.clip (Z.of_nat (length ydata)) stop)%nat.
Proof.
  intros Hfit Hlen. unfold region_intensity. rewrite Hfit. cbn [mbind option_bind].
  unfold Np1.sub. rewrite decide_True by done. cbn [mbind option_bind].
  set (sub := zip_with Qcminus ydata fitted).
  assert (Hsub : length sub = length ydata)
    by (subst sub; rewrite length_zip_with; lia).
  destruct (energy_index xdata peak_range.1) as [start|]; cbn [mbind option_bind]; [|done].
  destruct (energy_index xdata peak_range.2) as [stop|]; cbn [mbind option_bind]; [|done].
  destruct (Np.amin _) as [data_floor|] eqn:Hfloor; cbn [mbind option_bind]; [|done].
  destruct (Py.get sub start) as [y0|] eqn:H0; cbn [mbind option_bind]; [|done].
  destruct (Py.get sub stop) as [y1|] eqn:H1; cbn [mbind option_bind]; [|done].
  intros _. exists start, stop.
  apply get_Some_range in H0, H1. rewrite Hsub in H0, H1.
  repeat split; try lia.
  unfold Py3.slice in Hfloor. rewrite Hsub in Hfloor.
  destruct (decide (Py3.clip (Z.of_nat (length ydata)) start
                    < Py3.clip (Z.of_nat (length ydata)) stop)%nat) as [|Hge]; [done|].
  replace (Py3.clip (Z.of_nat (length ydata)) stop
           - Py3.clip (Z.of_nat (length ydata)) start)%nat with 0%nat in Hfloor by lia.
  by rewrite take_0 in Hfloor.
Qed.

End region_facts.

(** ** [aperture_image]: the sum inside the aperture *)

Lemma list_fmap_seq_lookup {A} (d : A) (l : list A) :
  l = (λ i, default d (l !! i)) <$> seq 0 (length l).
Proof.
  apply list_eq. intros i. rewrite list_lookup_fmap.
  destruct (l !! i) as [x|] eqn:Hx.
  - rewrite lookup_seq_lt by (by eapply lookup_lt_Some). cbn. by rewrite Hx.
  - rewrite lookup_seq_ge by (by apply lookup_ge_None). done.
Qed.

Lemma sum_zeros {A} (l : list A) : Np.sum ((λ _, 0) <$> l) = 0.
Proof. unfold Np.sum. induction l as [|x l IH]; cbn; [done|]. rewrite IH. ring. Qed.

Lemma pix_scale (a : Qc) (c : image) (i j : nat) :
  pix ((λ row : list Qc, (λ v, a * v) <$> row) <$> c) i j = a * pix c i j.
Proof.
  unfold pix, at2. rewrite list_lookup_fmap.
  destruct (c !! i) as [row|]; cbn; [|ring].
  rewrite list_lookup_fmap. destruct (row !! j); cbn; [done|ring].
Qed.

Section aperture_facts.
Variables d2 d3 : nat.
Local Abbreviation cell_rect := (Np4.cell_rect d2 d3).
Local Abbreviation zero := (replicate d2 (replicate d3 (Q2Qc 0))).

Lemma zero_rect : cell_rect zero.
Proof.
  split; [apply length_replicate|]. apply Forall_replicate, length_replicate.
Qed.

Lemma pix_zero (i j : nat) : pix zero i j = 0.
Proof.
  unfold pix, at2. destruct (zero !! i) as [row|] eqn:Hi; [|done].
  apply lookup_replicate_1 in Hi as [-> _]. cbn.
  destruct (replicate d3 (Q2Qc 0) !! j) as [v|] eqn:Hj; [|done].
  by apply lookup_replicate_1 in Hj as [-> _].
Qed.

Lemma scale_rect (a : Qc) (c : image) :
  cell_rect c → cell_rect ((λ row : list Qc, (λ v, a * v) <$> row) <$> c).
Proof.
  intros [Hlen Hrows]. split; [by rewrite length_fmap|].
  apply Forall_fmap. eapply Forall_impl; [exact Hrows|].
  intros row Hrow. cbn. by rewrite length_fmap.
Qed.

Lemma add_rect (a b : image) :
  cell_rect a → cell_rect b → cell_rect (Np.add_image a b).
Proof.
  intros [Ha Hra] [Hb Hrb]. unfold Np.add_image. split.
  - rewrite length_zip_with. lia.
  - apply Forall_lookup_2. intros i row Hrow.
    rewrite lookup_zip_with in Hrow.
    destruct (a !! i) as [ra|] eqn:Hai; [|done].
    destruct (b !! i) as [rb|] eqn:Hbi; [|done].
    cbn in Hrow. injection Hrow as <-. rewrite length_zip_with.
    pose proof (Forall_lookup_1 _ _ _ _ Hra Hai) as H1.
    pose proof (Forall_lookup_1 _ _ _ _ Hrb Hbi) as H2. cbn in H1, H2. lia.
Qed.

Lemma pix_add (a b : image) (i j : nat) :
  cell_rect a → cell_rect b →
  pix (Np.add_image a b) i j = pix a i j + pix b i j.
Proof.
  intros [Ha Hra] [Hb Hrb]. unfold pix, at2, Np.add_image.
  rewrite lookup_zip_with.
  destruct (a !! i) as [ra|] eqn:Hai, (b !! i) as [rb|] eqn:Hbi; cbn.
  - pose proof (Forall_lookup_1 _ _ _ _ Hra Hai) as H1.
    pose proof (Forall_lookup_1 _ _ _ _ Hrb Hbi) as H2. cbn in H1, H2.
    rewrite lookup_zip_with.
    destruct (ra !! j) as [x|] eqn:Hx, (rb !! j) as [y|] eqn:Hy; cbn; try ring.
    + apply lookup_lt_Some in Hx. apply lookup_ge_None in Hy. lia.
    + apply lookup_ge_None in Hx. apply lookup_lt_Some in Hy. lia.
  - apply lookup_lt_Some in Hai. apply lookup_ge_None in Hbi. lia.
  - apply lookup_ge_None in Hai. apply lookup_lt_Some in Hbi. lia.
  - ring.
Qed.

Lemma foldr_add_image (l : list image) :
  Forall cell_rect l →
  cell_rect (foldr Np.add_image zero l) ∧
  ∀ i j, pix (foldr Np.add_image zero l) i j = Np.sum ((λ c, pix c i j) <$> l).
Proof.
  induction 1 as [|c l Hc _ [IH1 IH2]]; cbn [foldr].
  - split; [apply zero_rect|]. intros i j. by rewrite pix_zero.
  - split; [by apply add_rect|]. intros i j.
    rewrite pix_add, IH2 by done. done.
Qed.

Lemma foldr_add_rows (d1 : nat) (L : list (list image)) :
  Forall (λ pl : list image, length pl = d1 ∧ Forall cell_rect pl) L →
  length (foldr (zip_with Np.add_image) (replicate d1 zero) L) = d1 ∧
  Forall cell_rect (foldr (zip_with Np.add_image) (replicate d1 zero) L) ∧
  ∀ i1 i j, (i1 < d1)%nat →
    pix (default [] (foldr (zip_with Np.add_image) (replicate d1 zero) L !! i1)) i j
    = Np.sum ((λ pl : list image, pix (default [] (pl !! i1)) i j) <$> L).
Proof.
  induction 1 as [|pl L [Hpl Hcells] _ (IH1 & IH2 & IH3)]; cbn [foldr].
  - split; [apply length_replicate|]. split; [apply Forall_replicate, zero_rect|].
    intros i1 i j Hi1. rewrite lookup_replicate_2 by done. cbn. by rewrite pix_zero.
  - set (R := foldr (zip_with Np.add_image) (replicate d1 zero) L) in *.
    split; [rewrite length_zip_with; lia|]. split.
    + apply Forall_lookup_2. intros i1 c Hc. rewrite lookup_zip_with in Hc.
      destruct (pl !! i1) as [a|] eqn:Ha; [|done].
      destruct (R !! i1) as [b|] eqn:Hb; [|done].
      cbn in Hc. injection Hc as <-. apply add_rect.
      * by eapply (Forall_lookup_1 _ _ _ _ Hcells).
      * by eapply (Forall_lookup_1 _ _ _ _ IH2).
    + intros i1 i j Hi1. rewrite lookup_zip_with.
      destruct (lookup_lt_is_Some_2 pl i1) as [a Ha]; [lia|].
      destruct (lookup_lt_is_Some_2 R i1) as [b Hb]; [lia|].
      specialize (IH3 i1 i j Hi1). rewrite Hb in IH3. cbn in IH3.
      rewrite Ha, Hb. cbn [mbind option_bind default from_option fmap list_fmap].
      change (id (Np.add_image a b)) with (Np.add_image a b).
      rewrite pix_add.
      * rewrite IH3, Ha. reflexivity.
      * by eapply (Forall_lookup_1 _ _ _ _ Hcells).
      * by eapply (Forall_lookup_1 _ _ _ _ IH2).
Qed.

Lemma aperture_image_pixel (d1 : nat) (data4D : data4d) (center : Qc * Qc)
    (radius : Qc) (i2 i3 : nat) :
  Forall (λ pl : list image, length pl = d1 ∧ Forall cell_rect pl) data4D →
  Np4.shape4 data4D = (length data4D, d1, d2, d3) →
  (i2 < d2)%nat → (i3 < d3)%nat →
  at2 (aperture_image data4D center radius) i2 i3
  = Some (Np.sum
            ((λ i0,
                Np.sum ((λ i1,
                           (if in_aperture center radius i0 i1 then 1 else 0)
                           * default 0 (at4 data4D i0 i1 i2 i3))
                        <$> seq 0 d1))
             <$> seq 0 (length data4D))).
Proof.
  intros Hrect Hshape Hi2 Hi3. unfold aperture_image. rewrite Hshape.
  set (W := λ i0 i1 : nat, if in_aperture center radius i0 i1 then Q2Qc 1 else 0).
  set (scale := λ (a : Qc) (c : image), (λ row : list Qc, (λ v, a * v) <$> row) <$> c).
  set (M := zip_with (zip_with scale) (aperture (length data4D) d1 center radius) data4D).
  assert (HMlen : length M = length data4D).
  { subst M. unfold aperture. rewrite length_zip_with, length_fmap, length_seq. lia. }
  assert (HMrow : ∀ i0 pl, data4D !! i0 = Some pl →
            M !! i0 = Some (zip_with scale (W i0 <$> seq 0 d1) pl)).
  { intros i0 pl Hpl. subst M. unfold aperture. rewrite lookup_zip_with.
    rewrite list_lookup_fmap, lookup_seq_lt by (by eapply lookup_lt_Some).
    cbn. by rewrite Hpl. }
  assert (HM : Forall (λ pl : list image, length pl = d1 ∧ Forall cell_rect pl) M).
  { apply Forall_lookup_2. intros i0 ml Hml.
    destruct (lookup_lt_is_Some_2 data4D i0) as [pl Hpl].
    { apply lookup_lt_Some in Hml. lia. }
    rewrite (HMrow i0 pl Hpl) in Hml. injection Hml as <-.
    destruct (Forall_lookup_1 _ _ _ _ Hrect Hpl) as [Hl Hc].
    split; [rewrite length_zip_with, length_fmap, length_seq; lia|].
    apply Forall_lookup_2. intros i1 c Hc1. rewrite lookup_zip_with in Hc1.
    destruct ((W i0 <$> seq 0 d1) !! i1) as [a|]; [|done].
    destruct (pl !! i1) as [c0|] eqn:Hc0; [|done].
    cbn in Hc1. injection Hc1 as <-. apply scale_rect.
    by eapply (Forall_lookup_1 _ _ _ _ Hc). }
  destruct (foldr_add_rows d1 M HM) as (HS1 & HS2 & HS3).
  set (S1 := foldr (zip_with Np.add_image) (replicate d1 zero) M) in *.
  destruct (foldr_add_image S1 HS2) as [[Hdl Hdr] Hdf].
  set (df := foldr Np.add_image zero S1) in *.
  assert (Hat : at2 df i2 i3 = Some (pix df i2 i3)).
  { unfold pix, at2. destruct (lookup_lt_is_Some_2 df i2) as [row Hrow]; [lia|].
    rewrite Hrow. cbn.
    pose proof (Forall_lookup_1 _ _ _ _ Hdr Hrow) as Hrl. cbn in Hrl.
    destruct (lookup_lt_is_Some_2 row i3) as [v Hv]; [lia|]. by rewrite Hv. }
  rewrite Hat, Hdf. f_equal.
  rewrite (list_fmap_seq_lookup [] S1) at 1. rewrite HS1, <- list_fmap_compose.
  rewrite (sum_fmap_swap
             (λ (i0 i1 : nat), W i0 i1 * default 0 (at4 data4D i0 i1 i2 i3))).
  f_equal. apply list_fmap_ext. intros k i1 Hk.
  apply lookup_seq in Hk as [E Hi1]. cbn in E. subst k. cbn [compose].
  rewrite HS3 by done.
  rewrite (list_fmap_seq_lookup [] M) at 1. rewrite HMlen, <- list_fmap_compose.
  f_equal. apply list_fmap_ext. intros k0 i0 Hk0.
  apply lookup_seq in Hk0 as [E Hi0]. cbn in E. subst k0. cbn [compose].
  destruct (lookup_lt_is_Some_2 data4D i0 Hi0) as [pl Hpl].
  destruct (Forall_lookup_1 _ _ _ _ Hrect Hpl) as [Hl Hc].
  rewrite (HMrow i0 pl Hpl). cbn [default from_option].
  change (id ?x) with x.
  rewrite lookup_zip_with, list_lookup_fmap, lookup_seq_lt by done.
  destruct (lookup_lt_is_Some_2 pl i1) as [c Hci]; [lia|].
  cbn. rewrite Hci. cbn. subst scale. cbv beta. rewrite pix_scale.
  unfold at4. rewrite Hpl. cbn. rewrite Hci. done.
Qed.

End aperture_facts.

Lemma rect4_shape (data4D : data4d) (d0 d1 d2 d3 : nat) :
  Np4.rect4 data4D → Np4.shape4 data4D = (d0, d1, d2, d3) →
  d0 = length data4D ∧
  Forall (λ pl : list image, length pl = d1 ∧ Forall (Np4.cell_rect d2 d3) pl)
    data4D.
Proof.
  unfold Np4.rect4. intros Hrect Hshape. rewrite Hshape in Hrect.
  split; [|done]. unfold Np4.shape4 in Hshape. by injection Hshape.
Qed.

Lemma root_le_negative (q r : Qc) : r < 0 → root_le q r = false.
Proof.
  intros Hr. unfold root_le.
  by rewrite (proj1 (Qcgt_alt 0 r) Hr).
Qed.

Lemma root_le_true (q r : Qc) : root_le q r = true ↔ 0 <= r ∧ q <= r * r.
Proof.
  unfold root_le. rewrite !Qcle_alt.
  destruct (0 ?= r), (q ?= r * r); split; try done; intros [? ?]; done.
Qed.

Lemma root_le_mono (q r r' : Qc) :
  r <= r' → root_le q r = true → root_le q r' = true.
Proof.
  intros Hle [H0 Hq]%root_le_true. apply root_le_true.
  assert (H0' : 0 <= r') by (by eapply Qcle_trans).
  split; [done|].
  eapply Qcle_trans; [exact Hq|].
  eapply Qcle_trans; [apply (Qcmult_le_compat_r r r' r Hle H0)|].
  rewrite (Qcmult_comm r' r).
  apply (Qcmult_le_compat_r r r' r' Hle H0').
Qed.

Lemma aperture_image_negative_pixel (d1 d2 d3 : nat) (data4D : data4d)
    (center : Qc * Qc) (radius : Qc) (i2 i3 : nat) :
  Forall (λ pl : list image, length pl = d1 ∧ Forall (Np4.cell_rect d2 d3) pl)
    data4D →
  Np4.shape4 data4D = (length data4D, d1, d2, d3) →
  radius < 0 → (i2 < d2)%nat → (i3 < d3)%nat →
  at2 (aperture_image data4D center radius) i2 i3 = Some 0.
Proof.
  intros Hrect Hshape Hr Hi2 Hi3.
  rewrite (aperture_image_pixel d2 d3 d1) by done. f_equal.
  etrans; [|apply (sum_zeros (seq 0 (length data4D)))]. f_equal.
  apply list_fmap_ext. intros _ i0 _. cbv beta.
  etrans; [|apply (sum_zeros (seq 0 d1))]. f_equal.
  apply list_fmap_ext. intros _ i1 _. cbv beta.
  unfold in_aperture. rewrite root_le_negative by done. apply Qcmult_0_l.
Qed.

(* ================================================================== *)
(** * Further results *)

(** ** [resizer] and [resizer2D] *)

(** X1.  When the length of the array is [k] times the target length [N],
    bin [n] of [resizer] is the mean of the [k] samples from [n*k] on. *)
Theorem resizer_block_means (data : list Qc) (k N : nat) :
  (1 ≤ k)%nat → (1 ≤ N)%nat → length data = (k * N)%nat →
  resizer data (Z.of_nat N)
  = Some ((λ n, Np.sum (take k (drop (n * k) data)) / z2q (Z.of_nat k))
          <$> seq 0 N).
Proof. apply resizer_blocks. Qed.

Lemma resizer_block_means_witness :
  resizer [z2q 1; z2q 2; z2q 3; z2q 4] (Z.of_nat 2)
  = Some ((λ n, Np.sum (take 2 (drop (n * 2) [z2q 1; z2q 2; z2q 3; z2q 4]))
                / z2q (Z.of_nat 2))
          <$> seq 0 2).
Proof.
  apply (resizer_block_means [z2q 1; z2q 2; z2q 3; z2q 4] 2 2);
    [lia | lia | reflexivity].
Defined.

(** X2.  When the target length is [k] times the length of the array,
    [resizer] repeats every sample [k] times: entry [n] of the result is
    entry [n / k] of the array. *)
Theorem resizer_upsample_repeats (data : list Qc) (k : nat) :
  (1 ≤ k)%nat → (1 ≤ length data)%nat →
  ∃ res, resizer data (Z.of_nat (k * length data)) = Some res ∧
         length res = (k * length data)%nat ∧
         ∀ n, (n < k * length data)%nat → res !! n = data !! (n / k)%nat.
Proof. apply resizer_repeats. Qed.

Lemma resizer_upsample_repeats_witness :
  is_Some (resizer [z2q 1; z2q 2] (Z.of_nat (3 * length [z2q 1; z2q 2]))).
Proof.
  destruct (resizer_upsample_repeats [z2q 1; z2q 2] 3)
    as (res & -> & _); [lia | cbn; lia | eauto].
Defined.

(** X3.  On an empty array [resizer] fails for every target length [N ≥ 1]:
    the first bin reads [data[m-1]] with nothing consumed. *)
Theorem resizer_empty_fails (N : Z) : (1 ≤ N)%Z → resizer [] N = None.
Proof. apply resizer_nil. Qed.

Lemma resizer_empty_fails_witness : resizer [] 3 = None.
Proof. apply (resizer_empty_fails 3). lia. Defined.

(** X4.  On an image of [R ≥ 1] rows of [C ≥ 1] pixels, with [N0] and [N1]
    the rounded quotients of [R] and [C] by the two sampling factors, both
    at least 1, [resizer2D] returns an image of [N0] rows of [N1] pixels
    whose sum is the sum of the image times [N0*N1 / (R*C)]. *)
Theorem resizer2D_shape_and_sum (data : image) (R C : nat) (s0 s1 N0 N1 : Z) :
  length data = R →
  Forall (λ r : list Qc, length r = C) data →
  (1 ≤ R)%nat → (1 ≤ C)%nat →
  Np.round_div (Z.of_nat R) s0 = Some N0 →
  Np.round_div (Z.of_nat C) s1 = Some N1 →
  (1 ≤ N0)%Z → (1 ≤ N1)%Z →
  ∃ res, resizer2D data (s0, s1) = Some res ∧
         length res = Z.to_nat N0 ∧
         Forall (λ r : list Qc, length r = Z.to_nat N1) res ∧
         Np.sum2 res
         = Np.sum2 data * (z2q N0 * z2q N1)
           / (z2q (Z.of_nat R) * z2q (Z.of_nat C)).
Proof. apply resizer2D_total. Qed.

Lemma resizer2D_shape_and_sum_witness :
  is_Some (resizer2D Sample.pattern1 (2%Z, 2%Z)).
Proof.
  destruct (resizer2D_shape_and_sum Sample.pattern1 2 2 2 2 1 1)
    as (res & -> & _);
    [reflexivity | repeat constructor | lia | lia
    | reflexivity | reflexivity | lia | lia | eauto].
Defined.

(** ** [data4Dto2D] *)

(** X5.  On a four-dimensional array of shape [(d0, d1, d2, d3)] whose axes
    have one length each, [data4Dto2D] returns an image of [d2*d3] rows of
    [d0*d1] pixels whose entry [(i2*d3 + i3, i0*d1 + i1)] is the entry
    [(i0, i1, i2, i3)] of the array. *)
Theorem data4Dto2D_entries (data4D : data4d) (d0 d1 d2 d3 : nat) :
  Np4.rect4 data4D →
  Np4.shape4 data4D = (d0, d1, d2, d3) →
  ∃ data2D,
    data4Dto2D data4D = Some data2D ∧
    length data2D = (d2 * d3)%nat ∧
    Forall (λ r : list Qc, length r = (d0 * d1)%nat) data2D ∧
    ∀ i0 i1 i2 i3, (i1 < d1)%nat → (i2 < d2)%nat → (i3 < d3)%nat →
      at2 data2D (i2 * d3 + i3) (i0 * d1 + i1) = at4 data4D i0 i1 i2 i3.
Proof.
  intros Hrect Hshape.
  destruct (rect4_shape _ _ _ _ _ Hrect Hshape) as [-> Hall].
  by eapply data4Dto2D_lookup.
Qed.

Lemma data4Dto2D_entries_witness :
  is_Some (data4Dto2D [[ [[z2q 1; z2q 2]]; [[z2q 3; z2q 4]] ]]).
Proof.
  destruct (data4Dto2D_entries [[ [[z2q 1; z2q 2]]; [[z2q 3; z2q 4]] ]] 1 2 1 2)
    as (data2D & -> & _); [| reflexivity | eauto].
  unfold Np4.rect4, Np4.cell_rect. cbn. repeat constructor.
Defined.

(** ** [fit_nbed_disks] and the two strain extractors *)

(** X6.  [fit_nbed_disks] returns exactly when there are as many positions
    as index pairs and one of the index pairs is [(0, 0)]; otherwise the
    selection of the central disk raises. *)
Theorem fit_nbed_disks_defined_iff `{NbedLib} (corr_image : image)
    (disk_size : Qc) (positions diff_spots : list (Qc * Qc)) :
  is_Some (fit_nbed_disks corr_image disk_size positions diff_spots)
  ↔ length positions = length diff_spots ∧
    ∃ c, diff_spots !! c = Some (0, 0).
Proof.
  split.
  - intros [r Hr].
    destruct (decide (length positions = length diff_spots)) as [Hlen|Hlen].
    + split; [done|].
      destruct (decide (Forall (λ s, is_origin s = false) diff_spots))
        as [Hno|Hex].
      * rewrite (fit_nbed_disks_no_origin corr_image disk_size positions
                   diff_spots) in Hr; [done|].
        eapply Forall_impl; [exact Hno|]. intros s Hs Es.
        apply is_origin_true in Es. cbv beta in Hs. congruence.
      * apply not_Forall_Exists in Hex; [|apply _].
        apply Exists_exists in Hex as (s & Hin & Hs).
        apply not_false_is_true, is_origin_true in Hs. subst s.
        by apply list_elem_of_lookup_1 in Hin.
    + by rewrite (fit_nbed_disks_mismatch _ _ _ _ Hlen) in Hr.
  - intros [Hlen [c Hc]]. by eapply fit_nbed_disks_Some.
Qed.

(** X7.  When several index pairs are [(0, 0)], the first of them is the
    central disk: with [c] the least index of a pair [(0, 0)],
    [fit_nbed_disks] returns the refined position of disk [c] as the centre
    and measures the other positions from it. *)
Theorem fit_nbed_disks_first_origin `{NbedLib} (corr_image : image)
    (disk_size : Qc) (positions diff_spots : list (Qc * Qc)) (c : nat) :
  length positions = length diff_spots →
  diff_spots !! c = Some (0, 0) →
  (∀ j, (j < c)%nat → diff_spots !! j ≠ Some (0, 0)) →
  ∃ cx cy,
    refined corr_image disk_size positions !! c = Some (cx, cy) ∧
    fit_nbed_disks corr_image disk_size positions diff_spots
    = Some (refined corr_image disk_size positions, (cx, cy),
            lstsq diff_spots
              ((λ p : Qc * Qc, (p.1 - cx, - p.2 - - cy))
               <$> refined corr_image disk_size positions)).
Proof.
  intros Hlen Hc Hfirst. apply fit_nbed_disks_first; [done| |].
  - rewrite list_lookup_fmap, Hc. cbn. f_equal; by apply is_origin_true.
  - intros j Hj. rewrite list_lookup_fmap.
    destruct (lookup_lt_is_Some_2 diff_spots j) as [s Hs].
    { apply lookup_lt_Some in Hc. lia. }
    rewrite Hs. cbn. f_equal. destruct (is_origin s) eqn:Ho; [|done].
    apply is_origin_true in Ho. subst s. by apply Hfirst in Hs.
Qed.

Lemma fit_nbed_disks_first_origin_witness :
  is_Some (fit_nbed_disks (H:=Sample.nbed) Sample.pattern1 (z2q 2)
             [(z2q 5, z2q 5); (z2q 7, z2q 5); (z2q 5, z2q 8)]
             [(z2q 1, z2q 0); (z2q 0, z2q 0); (z2q 0, z2q 0)]).
Proof.
  destruct (fit_nbed_disks_first_origin (H:=Sample.nbed) Sample.pattern1 (z2q 2)
              [(z2q 5, z2q 5); (z2q 7, z2q 5); (z2q 5, z2q 8)]
              [(z2q 1, z2q 0); (z2q 0, z2q 0); (z2q 0, z2q 0)] 1)
    as (cx & cy & _ & ->); [reflexivity | reflexivity | | eauto].
  intros [|j] Hj; [|lia]. intros E.
  apply (f_equal (λ o, (λ s : Qc * Qc, (this s.1, this s.2)) <$> o)) in E.
  vm_compute in E. discriminate.
Defined.

(** X9.  When the stack has a pattern and no index pair is [(0, 0)], both
    [strain_in_ROI] and [strain_oldstyle] fail, with or without a supplied
    reference basis. *)
Theorem strain_needs_direct_beam `{NbedLib} (stack : list image)
    (center_disk : image) (disk_list pos_list : list (Qc * Qc))
    (reference_axes : option mat2) (med_factor : Qc) :
  stack ≠ [] →
  Forall (λ s, s ≠ (0, 0)) pos_list →
  strain_in_ROI stack center_disk disk_list pos_list reference_axes med_factor
  = None
  ∧ strain_oldstyle stack center_disk disk_list pos_list reference_axes = None.
Proof.
  intros Hstack Hno. rewrite strain_in_ROI_pipeline, strain_oldstyle_pipeline.
  split; by apply pipeline_no_origin.
Qed.

Lemma strain_needs_direct_beam_witness :
  strain_oldstyle (H:=Sample.nbed) [Sample.pattern1] Sample.disk
    [(z2q 7, z2q 5); (z2q 5, z2q 8)] [(z2q 1, z2q 0); (z2q 0, z2q 1)] None
  = None.
Proof.
  apply (strain_needs_direct_beam (H:=Sample.nbed) [Sample.pattern1] Sample.disk
           [(z2q 7, z2q 5); (z2q 5, z2q 8)] [(z2q 1, z2q 0); (z2q 0, z2q 1)]
           None (z2q 10)); [done|].
  repeat constructor; intros E;
    apply (f_equal (λ s : Qc * Qc, (this s.1, this s.2))) in E;
    vm_compute in E; discriminate.
Defined.

(** X10.  What [strain_in_ROI] and [strain_oldstyle] return has one entry
    per pattern of the stack in each of the four arrays. *)
Theorem strain_one_entry_per_pattern `{NbedLib} (stack : list image)
    (center_disk : image) (disk_list pos_list : list (Qc * Qc))
    (reference_axes : option mat2) (med_factor : Qc)
    (e_xx e_xy e_th e_yy : list Qc) :
  strain_in_ROI stack center_disk disk_list pos_list reference_axes med_factor
    = Some (e_xx, e_xy, e_th, e_yy)
  ∨ strain_oldstyle stack center_disk disk_list pos_list reference_axes
    = Some (e_xx, e_xy, e_th, e_yy) →
  length e_xx = length stack ∧ length e_xy = length stack ∧
  length e_th = length stack ∧ length e_yy = length stack.
Proof.
  rewrite strain_in_ROI_pipeline, strain_oldstyle_pipeline.
  intros [Hs|Hs]; by eapply pipeline_lengths.
Qed.

Lemma strain_one_entry_per_pattern_witness :
  ∃ e_xx e_xy e_th e_yy,
    strain_oldstyle (H:=Sample.nbed) [Sample.pattern1; Sample.pattern2]
      Sample.disk Sample.positions Sample.diff_spots None
    = Some (e_xx, e_xy, e_th, e_yy) ∧
    length e_xx = 2%nat ∧ length e_xy = 2%nat ∧
    length e_th = 2%nat ∧ length e_yy = 2%nat.
Proof.
  destruct (strain_oldstyle (H:=Sample.nbed) [Sample.pattern1; Sample.pattern2]
              Sample.disk Sample.positions Sample.diff_spots None)
    as [[[[e_xx e_xy] e_th] e_yy]|] eqn:E; [|vm_compute in E; discriminate].
  exists e_xx, e_xy, e_th, e_yy. split; [reflexivity|].
  apply (strain_one_entry_per_pattern (H:=Sample.nbed)
           [Sample.pattern1; Sample.pattern2] Sample.disk Sample.positions
           Sample.diff_spots None (z2q 10)).
  right. exact E.
Defined.

(** X11.  A pattern whose fitted basis is the reference basis [R] deformed
    by [D], that is [D · R], gets the strain read off [D]:
    [e_xx = 1 − D00], [e_xy = −(D01 + D10)], [e_theta = D01 − D10] and
    [e_yy = 1 − D11], for every reference basis that is not singular. *)
Theorem strain_of_deformed_pattern `{NbedLib} (stack : list image)
    (center_disk : image) (disk_list pos_list : list (Qc * Qc)) (c : nat)
    (R D : mat2) (ii : nat) (pattern : image) (med_factor : Qc) :
  length disk_list = length pos_list →
  pos_list !! c = Some (0, 0) →
  det2 R ≠ 0 →
  stack !! ii = Some pattern →
  pipeline_axes (edge_prep med_factor) edge_prep_disk center_disk disk_list
    pos_list pattern = Some (matmul2 D R) →
  ∃ e_xx e_xy e_th e_yy,
    strain_in_ROI stack center_disk disk_list pos_list (Some R) med_factor
      = Some (e_xx, e_xy, e_th, e_yy) ∧
    e_xx !! ii = Some (1 - m00 D) ∧
    e_xy !! ii = Some (- (m01 D + m10 D)) ∧
    e_th !! ii = Some (m01 D - m10 D) ∧
    e_yy !! ii = Some (1 - m11 D).
Proof.
  intros Hlen Hc Hdet Hii Hax. rewrite strain_in_ROI_pipeline.
  by eapply pipeline_deformation.
Qed.

Lemma strain_of_deformed_pattern_witness :
  ∃ e_xx e_xy e_th e_yy,
    strain_in_ROI (H:=Sample.nbed) [Sample.pattern1] Sample.disk
      Sample.positions Sample.diff_spots
      (Some (Mat2 (z2q 1) (z2q 0) (z2q 0) (z2q (-1)))) (z2q 10)
    = Some (e_xx, e_xy, e_th, e_yy) ∧
    e_xx !! 0%nat = Some (1 - z2q 2).
Proof.
  destruct (strain_of_deformed_pattern (H:=Sample.nbed) [Sample.pattern1]
              Sample.disk Sample.positions Sample.diff_spots 0
              (Mat2 (z2q 1) (z2q 0) (z2q 0) (z2q (-1)))
              (Mat2 (z2q 2) (z2q 0) (z2q 0) (z2q 3)) 0 Sample.pattern1 (z2q 10))
    as (e_xx & e_xy & e_th & e_yy & Hs & Hxx & _);
    [reflexivity | reflexivity | | reflexivity | vm_compute; reflexivity |].
  - intros E. apply (f_equal this) in E. vm_compute in E. discriminate.
  - exists e_xx, e_xy, e_th, e_yy. split; [exact Hs | exact Hxx].
Defined.

(** ** [ROI_from_image] *)

(** X12.  Every [style] other than ['over'] gives the mask of ['under'],
    the pixels strictly below the threshold, and no pixel is in that mask
    and in the mask of ['over'] for the same image and factor. *)
Theorem ROI_from_image_styles (img : image) (med_val : Qc) (style : string)
    (showfig showfig' : bool) :
  style ≠ "over"%string →
  ROI_from_image img med_val style showfig
  = ROI_from_image img med_val "under" showfig'
  ∧ ∀ i j, at2 (ROI_from_image img med_val "over" showfig) i j = Some true →
           at2 (ROI_from_image img med_val style showfig') i j = Some true →
           False.
Proof.
  intros Hstyle. split.
  - by rewrite !ROI_from_image_other.
  - intros i j. rewrite ROI_from_image_over, ROI_from_image_other by done.
    unfold at2. rewrite !list_lookup_fmap.
    destruct (img !! i) as [row|]; cbn; [|done].
    rewrite !list_lookup_fmap. destruct (row !! j) as [v|]; cbn; [|done].
    destruct (Np.median img) as [md|]; [|done].
    unfold is_above, is_below. by destruct (v ?= med_val * md).
Qed.

Lemma ROI_from_image_styles_witness :
  ROI_from_image Sample.pattern1 1 "below" true
  = ROI_from_image Sample.pattern1 1 "under" false.
Proof.
  apply (ROI_from_image_styles Sample.pattern1 1 "below" true false). done.
Defined.

(** X13.  With the factor 1 the threshold is the median itself, and the
    mask of [ROI_from_image] then holds at most half of the pixels of the
    image, for every style. *)
Theorem ROI_from_image_at_most_half (img : image) (style : string)
    (showfig : bool) :
  (2 * Mask.count (ROI_from_image img 1 style showfig)
   ≤ length (concat img))%nat.
Proof.
  destruct (String.eqb_spec style "over") as [->|Hstyle].
  - rewrite ROI_from_image_over, mask_count_fmap.
    destruct (Np.median img) as [md|] eqn:Hmd.
    + rewrite Qcmult_1_l. by apply median_split.
    + rewrite filter_none; [cbn; lia|]. by apply Forall_forall.
  - rewrite ROI_from_image_other, mask_count_fmap by done.
    destruct (Np.median img) as [md|] eqn:Hmd.
    + rewrite Qcmult_1_l. by apply median_split.
    + rewrite filter_none; [cbn; lia|]. by apply Forall_forall.
Qed.

(** ** [test_aperture] and [aperture_image] *)

(** X14.  The aperture of [test_aperture] grows with the radius: at every
    pixel, the value for a radius is at most the value for a larger one. *)
Theorem test_aperture_grows_with_radius (pattern : image) (center : Qc * Qc)
    (r r' : Qc) (showfig showfig' : bool) (y x : nat) (v v' : Qc) :
  r <= r' →
  at2 (test_aperture pattern center r showfig) y x = Some v →
  at2 (test_aperture pattern center r' showfig') y x = Some v' →
  v <= v'.
Proof.
  intros Hle. unfold test_aperture, aperture, at2.
  generalize (Np.shape2 pattern).1 (Np.shape2 pattern).2. intros n0 n1.
  rewrite !list_lookup_fmap.
  destruct (seq 0 n0 !! y) as [y'|];
    cbn [fmap option_fmap option_map mbind option_bind]; [|done].
  rewrite !list_lookup_fmap.
  destruct (seq 0 n1 !! x) as [x'|]; cbn [fmap option_fmap option_map]; [|done].
  intros [= <-] [= <-]. unfold in_aperture.
  destruct (root_le _ r) eqn:Hr.
  - by rewrite (root_le_mono _ r r' Hle Hr).
  - by destruct (root_le _ r').
Qed.

Lemma test_aperture_grows_with_radius_witness :
  at2 (test_aperture Sample.pattern1 (0, 0) 0 true) 0 1 = Some 0 ∧
  at2 (test_aperture Sample.pattern1 (0, 0) 1 true) 0 1 = Some 1 ∧
  Q2Qc 0 <= 1.
Proof.
  split; [reflexivity|]. split; [reflexivity|].
  apply (test_aperture_grows_with_radius Sample.pattern1 (0, 0) 0 1 true true
           0 1 0 1); [done | reflexivity | reflexivity].
Defined.

(** X15.  On a four-dimensional array of shape [(d0, d1, d2, d3)] whose axes
    have one length each, the pixel [(i2, i3)] of [aperture_image] is the
    sum of the entries [(i0, i1, i2, i3)] over the positions [(i0, i1)]
    inside the aperture. *)
Theorem aperture_image_sums_inside (data4D : data4d) (center : Qc * Qc)
    (radius : Qc) (d0 d1 d2 d3 i2 i3 : nat) :
  Np4.rect4 data4D →
  Np4.shape4 data4D = (d0, d1, d2, d3) →
  (i2 < d2)%nat → (i3 < d3)%nat →
  at2 (aperture_image data4D center radius) i2 i3
  = Some (Np.sum
            ((λ i0,
                Np.sum ((λ i1,
                           (if in_aperture center radius i0 i1 then 1 else 0)
                           * default 0 (at4 data4D i0 i1 i2 i3))
                        <$> seq 0 d1))
             <$> seq 0 d0)).
Proof.
  intros Hrect Hshape Hi2 Hi3.
  destruct (rect4_shape _ _ _ _ _ Hrect Hshape) as [-> Hall].
  by apply (aperture_image_pixel d2 d3 d1).
Qed.

Lemma aperture_image_sums_inside_witness :
  is_Some (at2 (aperture_image [[ [[z2q 1; z2q 2]]; [[z2q 3; z2q 4]] ]]
                  (0, 0) 1) 0 1).
Proof.
  rewrite (aperture_image_sums_inside [[ [[z2q 1; z2q 2]]; [[z2q 3; z2q 4]] ]]
             (0, 0) 1 1 2 1 2 0 1); [eauto | | reflexivity | lia | lia].
  unfold Np4.rect4, Np4.cell_rect. cbn. repeat constructor.
Defined.

(** X16.  With a negative radius the aperture is empty and every pixel of
    [aperture_image] is zero. *)
Theorem aperture_image_negative_radius (data4D : data4d) (center : Qc * Qc)
    (radius : Qc) (d0 d1 d2 d3 i2 i3 : nat) :
  Np4.rect4 data4D →
  Np4.shape4 data4D = (d0, d1, d2, d3) →
  radius < 0 → (i2 < d2)%nat → (i3 < d3)%nat →
  at2 (aperture_image data4D center radius) i2 i3 = Some 0.
Proof.
  intros Hrect Hshape Hr Hi2 Hi3.
  destruct (rect4_shape _ _ _ _ _ Hrect Hshape) as [-> Hall].
  by eapply aperture_image_negative_pixel.
Qed.

Lemma aperture_image_negative_radius_witness :
  at2 (aperture_image [[ [[z2q 1; z2q 2]]; [[z2q 3; z2q 4]] ]]
         (0, 0) (z2q (-1))) 0 1 = Some 0.
Proof.
  apply (aperture_image_negative_radius [[ [[z2q 1; z2q 2]]; [[z2q 3; z2q 4]] ]]
           (0, 0) (z2q (-1)) 1 2 1 2 0 1); [| reflexivity | done | lia | lia].
  unfold Np4.rect4, Np4.cell_rect. cbn. repeat constructor.
Defined.

(** ** [cleanEELS_wavelet] and [cleanEELS_3D] *)

(** X17.  [cleanEELS_wavelet] leaves the first level of the decomposition,
    the approximation, as it is and thresholds every other level at one
    tenth of its own maximum before the reconstruction; it fails when one
    of these levels is empty. *)
Theorem cleanEELS_wavelet_keeps_approximation `{PywtLib} (data : list Qc)
    (t : Qc) (c0 : list Qc) (rest : list (list Qc)) :
  wavedec data "sym4" (dwt_max_level (Z.of_nat (length data)) (dec_len "sym4"))
    = c0 :: rest →
  cleanEELS_wavelet data t
  = rest' ← mapM (λ c, top ← Np.amax c;
                       Some (threshold c (z2q 1 / z2q 10 * top))) rest;
    Some (waverec (c0 :: rest') "sym4").
Proof. apply cleanEELS_wavelet_levels. Qed.

Lemma cleanEELS_wavelet_keeps_approximation_witness :
  is_Some (cleanEELS_wavelet (H:=Sample2.pywt) Sample2.ydata 0).
Proof.
  rewrite (cleanEELS_wavelet_keeps_approximation (H:=Sample2.pywt) Sample2.ydata
             0 [z2q 5; z2q 7] [[z2q 6; z2q 9]]); [cbn; eauto | reflexivity].
Defined.

(** X18.  With the method ['wavelet'] or ['median'] and a threshold that is
    not positive, [cleanEELS_3D] returns the data as they are. *)
Theorem cleanEELS_3D_threshold_not_positive `{PywtLib} `{SignalLib}
    (data3D : list image) (method : string) (t : Qc) :
  method = "wavelet"%string ∨ method = "median"%string → t <= 0 →
  cleanEELS_3D data3D method t = Some data3D.
Proof. apply cleanEELS_3D_not_positive. Qed.

Lemma cleanEELS_3D_threshold_not_positive_witness :
  cleanEELS_3D (H:=Sample2.pywt) (H0:=Sample2.signal) Sample2.cube "median" 0
  = Some Sample2.cube.
Proof.
  apply (cleanEELS_3D_threshold_not_positive (H:=Sample2.pywt)
           (H0:=Sample2.signal) Sample2.cube "median" 0); [by right | done].
Defined.

(** X19.  With any method other than ['wavelet'] and ['median'],
    [cleanEELS_3D] returns an array of zeros of the shape of the data,
    whatever the threshold is. *)
Theorem cleanEELS_3D_unknown_method_zeros `{PywtLib} `{SignalLib}
    (data3D : list image) (method : string) (t : Qc) :
  method ≠ "wavelet"%string → method ≠ "median"%string →
  cleanEELS_3D data3D method t
  = Some (Np3.zeros3 (Np3.shape3 data3D).1.1 (Np3.shape3 data3D).1.2
            (Np3.shape3 data3D).2).
Proof. apply cleanEELS_3D_other_method. Qed.

Lemma cleanEELS_3D_unknown_method_zeros_witness :
  cleanEELS_3D (H:=Sample2.pywt) (H0:=Sample2.signal) Sample2.cube "mean" 1
  = Some (Np3.zeros3 4 1 2).
Proof.
  apply (cleanEELS_3D_unknown_method_zeros (H:=Sample2.pywt)
           (H0:=Sample2.signal) Sample2.cube "mean" 1); done.
Defined.

(** X20.  With the method ['wavelet'], any two positive thresholds give the
    same result: only the sign of the threshold is used. *)
Theorem cleanEELS_3D_wavelet_threshold_sign `{PywtLib} `{SignalLib}
    (data3D : list image) (t1 t2 : Qc) :
  0 < t1 → 0 < t2 →
  cleanEELS_3D data3D "wavelet" t1 = cleanEELS_3D data3D "wavelet" t2.
Proof. apply cleanEELS_3D_wavelet_any. Qed.

Lemma cleanEELS_3D_wavelet_threshold_sign_witness :
  cleanEELS_3D (H:=Sample2.pywt) (H0:=Sample2.signal) Sample2.cube "wavelet" 1
  = cleanEELS_3D (H:=Sample2.pywt) (H0:=Sample2.signal) Sample2.cube "wavelet"
      (z2q 2).
Proof.
  apply (cleanEELS_3D_wavelet_threshold_sign (H:=Sample2.pywt)
           (H0:=Sample2.signal) Sample2.cube 1 (z2q 2)); done.
Defined.

(** ** [region_intensity] *)

(** X21.  The sum that [region_intensity] returns is never negative: it is
    taken above the least value of the window. *)
Theorem region_intensity_not_negative `{EelsFit} (xdata ydata : list Qc)
    (xrange peak_range : Qc * Qc) (showdata : bool) (s : Qc) :
  region_intensity xdata ydata xrange peak_range showdata = Some s → 0 <= s.
Proof. apply region_intensity_nonneg. Qed.

Lemma region_intensity_not_negative_witness :
  region_intensity (H:=Sample2.fit) Sample2.xdata Sample2.ydata
    (z2q 0, z2q 1) (z2q 1, z2q 3) false = Some 1 ∧
  Q2Qc 0 <= 1.
Proof.
  split; [vm_compute; reflexivity|].
  apply (region_intensity_not_negative (H:=Sample2.fit) Sample2.xdata
           Sample2.ydata (z2q 0, z2q 1) (z2q 1, z2q 3) false 1).
  vm_compute. reflexivity.
Defined.

(** X22.  [region_intensity] returns only when both ends of the peak range
    fall on indices of the spectrum and the window between them is not
    empty: an end at or beyond the last energy, or a window without a
    sample, makes it fail. *)
Theorem region_intensity_window_valid `{EelsFit} (xdata ydata : list Qc)
    (xrange peak_range : Qc * Qc) (showdata : bool) (s : Qc)
    (fitted : list Qc) (power const : Qc) :
  powerlaw_fit xdata ydata xrange = Some (fitted, power, const) →
  length fitted = length ydata →
  region_intensity xdata ydata xrange peak_range showdata = Some s →
  ∃ start stop,
    energy_index xdata peak_range.1 = Some start ∧
    energy_index xdata peak_range.2 = Some stop ∧
    (- Z.of_nat (length ydata) ≤ start < Z.of_nat (length ydata))%Z ∧
    (- Z.of_nat (length ydata) ≤ stop < Z.of_nat (length ydata))%Z ∧
    (Py3.clip (Z.of_nat (length ydata)) start
     < Py3.clip (Z.of_nat (length ydata)) stop)%nat.
Proof. apply region_intensity_window. Qed.

Lemma region_intensity_window_valid_witness :
  is_Some (energy_index Sample2.xdata (z2q 3)).
Proof.
  destruct (region_intensity_window_valid (H:=Sample2.fit) Sample2.xdata
              Sample2.ydata (z2q 0, z2q 1) (z2q 1, z2q 3) false 1
              ((λ _, 0) <$> Sample2.xdata) 0 1)
    as (start & stop & _ & Hstop & _);
    [reflexivity | reflexivity | vm_compute; reflexivity |].
  exists stop. exact Hstop.
Defined.
